(** * Blackjack mini project: score engine, dealer turn and round routes

    A shallow embedding of [server.js] (the express routes) and of the
    browser script that plays the game ([scorePlayer], [stand], ...),
    followed by the properties the specification states about them. *)

From Stdlib Require Import ZArith Lia Ascii String List Permutation DecimalString.
From stdpp Require Import base option list strings gmap.

Local Open Scope Z_scope.

(** ** JavaScript values and coercions used by the score engine *)

Module Js.

(** A JavaScript number as the score engine sees it.  Every quantity that
    [scorePlayer] adds is integral, so a number is either an integer or
    [NaN].  Integers are mathematical: the rounding that doubles apply
    beyond 2^53 is not part of the model. *)
Inductive JsNumber : Type :=
  | NaN
  | Num (z : Z).

#[global] Instance JsNumber_eq_dec : EqDecision JsNumber.
Proof. solve_decision. Defined.

(** [a + b], [a - b], [a > b], [a < b] on numbers; a comparison with
    [NaN] is false and arithmetic on [NaN] is [NaN]. *)
Definition add (a b : JsNumber) : JsNumber :=
  match a, b with
  | Num x, Num y => Num (x + y)
  | _, _ => NaN
  end.

Definition sub (a b : JsNumber) : JsNumber :=
  match a, b with
  | Num x, Num y => Num (x - y)
  | _, _ => NaN
  end.

Definition gt (a b : JsNumber) : bool :=
  match a, b with
  | Num x, Num y => x >? y
  | _, _ => false
  end.

Definition lt (a b : JsNumber) : bool :=
  match a, b with
  | Num x, Num y => x <? y
  | _, _ => false
  end.

(** The value of a card's [value] field after JSON decoding: an integral
    number, a string, [null], a boolean or an array of such values, or
    [undefined] when the field is missing.  Numbers with a fraction and
    objects are not part of the model. *)
#[warnings="-register-all"]
Inductive JsValue : Type :=
  | JsNum (z : Z)
  | JsStr (s : string)
  | JsUndefined
  | JsNull
  | JsBool (b : bool)
  | JsArr (elems : list JsValue).

#[global] Instance JsValue_eq_dec : EqDecision JsValue.
Proof.
  refine (fix go (x y : JsValue) {struct x} : Decision (x = y) :=
    match x, y with
    | JsNum a, JsNum b => cast_if (decide (a = b))
    | JsStr a, JsStr b => cast_if (decide (a = b))
    | JsUndefined, JsUndefined => left _
    | JsNull, JsNull => left _
    | JsBool a, JsBool b => cast_if (decide (a = b))
    | JsArr a, JsArr b => cast_if (@list_eq_dec _ go a b)
    | _, _ => right _
    end); congruence.
Defined.

(** *** ToString

    An integer below 10^21 in magnitude prints as its decimal digits.  An
    array prints its elements separated by commas, [null] and
    [undefined] printing as nothing there. *)
Definition join (sep : string) (l : list string) : string :=
  match l with
  | [] => ""
  | s :: rest => fold_left (fun acc t => acc ++ sep ++ t) rest s
  end%string.

Fixpoint ToString (v : JsValue) : string :=
  match v with
  | JsNum z => NilZero.string_of_int (Z.to_int z)
  | JsStr s => s
  | JsUndefined => "undefined"
  | JsNull => "null"
  | JsBool b => if b then "true" else "false"
  | JsArr elems =>
      join "," (map (fun e => match e with
                              | JsUndefined | JsNull => ""
                              | _ => ToString e
                              end) elems)
  end%string.

(** *** Characters *)

Definition code (c : ascii) : Z := Z.of_N (N_of_ascii c).

(** TAB, LF, VT, FF, CR and SP: the white space of [StrWhiteSpaceChar]
    that an ASCII string can hold. *)
Definition is_white (c : ascii) : bool :=
  let n := code c in ((9 <=? n) && (n <=? 13)) || (n =? 32).

Definition digit_of (radix : Z) (c : ascii) : option Z :=
  let n := code c in
  let d :=
    if (48 <=? n) && (n <=? 57) then Some (n - 48)
    else if (97 <=? n) && (n <=? 122) then Some (n - 87)
    else if (65 <=? n) && (n <=? 90) then Some (n - 55)
    else None in
  match d with
  | Some k => if k <? radix then Some k else None
  | None => None
  end.

Fixpoint skip_white (l : list ascii) : list ascii :=
  match l with
  | c :: l' => if is_white c then skip_white l' else l
  | [] => []
  end.

Definition trim (l : list ascii) : list ascii :=
  rev (skip_white (rev (skip_white l))).

(** The longest prefix of digits of the radix, and what follows it. *)
Fixpoint digits (radix : Z) (l : list ascii) : list Z * list ascii :=
  match l with
  | c :: l' =>
      match digit_of radix c with
      | Some d => let '(ds, r) := digits radix l' in (d :: ds, r)
      | None => ([], l)
      end
  | [] => ([], [])
  end.

Definition value_of (radix : Z) (ds : list Z) : Z :=
  fold_left (fun acc d => acc * radix + d) ds 0.

Definition strip_sign (l : list ascii) : bool * list ascii :=
  match l with
  | "+"%char :: r => (false, r)
  | "-"%char :: r => (true, r)
  | _ => (false, l)
  end.

Definition signed (neg : bool) (z : Z) : Z := if neg then - z else z.

(** *** ToNumber on strings, up to what the score engine observes

    [scorePlayer] only asks of [ToNumber(s)] whether it is [NaN] and
    whether it equals zero, so [StringToNumber] is modelled by that
    classification of the [StringNumericLiteral] grammar. *)
Inductive NumericClass : Type := ClsNaN | ClsZero | ClsNonZero.

(** A decimal literal of mantissa [m] and exponent [e] denotes [m * 10^e];
    it is the number zero when [m] is zero or when the value rounds to
    zero, that is when it is at most 2^-1075. *)
Definition classify_decimal (m e : Z) : NumericClass :=
  if m =? 0 then ClsZero
  else if (e <? 0) && (m * 2 ^ 1075 <=? 10 ^ (- e)) then ClsZero
  else ClsNonZero.

(** [ExponentPart_opt], which must reach the end of the literal. *)
Definition exponent (l : list ascii) : option Z :=
  match l with
  | [] => Some 0
  | c :: r =>
      if (code c =? 101) || (code c =? 69) then
        let '(neg, r') := strip_sign r in
        match digits 10 r' with
        | (d :: ds, []) => Some (signed neg (value_of 10 (d :: ds)))
        | _ => None
        end
      else None
  end.

Definition unsigned_decimal (l : list ascii) : NumericClass :=
  if decide (l = list_ascii_of_string "Infinity") then ClsNonZero
  else
    let '(ip, r1) := digits 10 l in
    let '(fp, r2) :=
      match r1 with
      | "."%char :: r => digits 10 r
      | _ => ([], r1)
      end in
    match ip ++ fp with
    | [] => ClsNaN
    | m =>
        match exponent r2 with
        | Some e => classify_decimal (value_of 10 m) (e - Z.of_nat (length fp))
        | None => ClsNaN
        end
    end.

(** [0x], [0o] and [0b] literals: no sign, at least one digit. *)
Definition non_decimal (radix : Z) (l : list ascii) : NumericClass :=
  match digits radix l with
  | (d :: ds, []) => if value_of radix (d :: ds) =? 0 then ClsZero else ClsNonZero
  | _ => ClsNaN
  end.

Definition prefix_radix (c : ascii) : option Z :=
  let n := code c in
  if (n =? 120) || (n =? 88) then Some 16
  else if (n =? 111) || (n =? 79) then Some 8
  else if (n =? 98) || (n =? 66) then Some 2
  else None.

Definition StringToNumber (s : string) : NumericClass :=
  let l := trim (list_ascii_of_string s) in
  match l with
  | [] => ClsZero
  | c0 :: x :: r =>
      match (if code c0 =? 48 then prefix_radix x else None) with
      | Some radix => non_decimal radix r
      | None => unsigned_decimal (snd (strip_sign l))
      end
  | _ => unsigned_decimal (snd (strip_sign l))
  end.

(** The global [isNaN(v)]: [ToNumber(v)] is [NaN].  [ToNumber] is [NaN]
    on [undefined], 0 on [null], 0 or 1 on a boolean, and on an array
    what it is on the string the array prints as. *)
Definition isNaN (v : JsValue) : bool :=
  match v with
  | JsNum _ => false
  | JsStr s => match StringToNumber s with ClsNaN => true | _ => false end
  | JsUndefined => true
  | JsNull => false
  | JsBool _ => false
  | JsArr _ => match StringToNumber (ToString v) with ClsNaN => true | _ => false end
  end.

(** [v == 0]: a string or boolean operand is converted with [ToNumber],
    an array is printed first; [null] and [undefined] equal each other
    only. *)
Definition loose_eq_zero (v : JsValue) : bool :=
  match v with
  | JsNum z => z =? 0
  | JsStr s => match StringToNumber s with ClsZero => true | _ => false end
  | JsUndefined => false
  | JsNull => false
  | JsBool b => negb b
  | JsArr _ => match StringToNumber (ToString v) with ClsZero => true | _ => false end
  end.

(** [v == 'NAME']: two strings are compared as they are and an array is
    printed first; a number or a boolean is compared with
    [ToNumber('NAME')], which is [NaN] for the three face names, so the
    comparison is false. *)
Definition loose_eq_string (v : JsValue) (name : string) : bool :=
  match v with
  | JsNum _ => false
  | JsStr s => String.eqb s name
  | JsUndefined => false
  | JsNull => false
  | JsBool _ => false
  | JsArr _ => String.eqb (ToString v) name
  end.

(** [parseInt(s)] without a radix: leading white space, a sign, an
    optional [0x], then the longest prefix of digits. *)
Definition parseInt_string (s : string) : JsNumber :=
  let '(neg, l) := strip_sign (skip_white (list_ascii_of_string s)) in
  let '(radix, l') :=
    match l with
    | c0 :: x :: r =>
        if (code c0 =? 48) && ((code x =? 120) || (code x =? 88))
        then (16, r) else (10, l)
    | _ => (10, l)
    end in
  match digits radix l' with
  | ([], _) => NaN
  | (ds, _) => Num (signed neg (value_of radix ds))
  end.

(** [parseInt(v)]: the value is first printed; an integer below 10^21 in
    magnitude prints as its decimal digits, which [parseInt] reads back. *)
Definition parseInt (v : JsValue) : JsNumber :=
  match v with
  | JsNum z => Num z
  | JsStr s => parseInt_string s
  | _ => parseInt_string (ToString v)
  end.



End Js.

Import Js.

(** ** Cards, piles and the game snapshot *)

(** A card as the Card Source lists it and as the client reads it. *)
Record Card : Type := mkCard {
  value : JsValue;
  suit : string
}.

#[global] Instance Card_eq_dec : EqDecision Card.
Proof. solve_decision. Defined.

Definition DEALER : string := "dealer".
Definition PLAYER : string := "player".

(** The deck reference of the Card Source, an opaque identifier. *)
Definition DeckId : Type := N.

(** The JSON snapshot the routes answer with, which is also the client's
    global [game] object.  [scores] is the object [{}] the server sends,
    filled by the client under the keys ['player'] and ['dealer']. *)
Record Game : Type := mkGame {
  gameName : string;
  deckId : DeckId;
  gamesWon : Z;
  gamesLost : Z;
  dealerPile : list Card;
  playerPile : list Card;
  scores : gmap string JsNumber
}.

(** Reading [game.scores[k]] where a number is expected: a missing key is
    [undefined], which compares like [NaN]. *)
Definition score_of (g : Game) (k : string) : JsNumber :=
  default NaN (scores g !! k).

Definition set_score (k : string) (n : JsNumber) (g : Game) : Game :=
  mkGame (gameName g) (deckId g) (gamesWon g) (gamesLost g)
         (dealerPile g) (playerPile g) (<[k := n]> (scores g)).

Definition set_dealerPile (p : list Card) (g : Game) : Game :=
  mkGame (gameName g) (deckId g) (gamesWon g) (gamesLost g)
         p (playerPile g) (scores g).

Definition set_playerPile (p : list Card) (g : Game) : Game :=
  mkGame (gameName g) (deckId g) (gamesWon g) (gamesLost g)
         (dealerPile g) p (scores g).

(** ** The score engine ([scorePlayer]) *)

Module Score.

(** The callback of [pile.forEach], acting on the two locals [score] and
    [aceCount]. *)
Definition forEach_body (st : JsNumber * Z) (card : Card) : JsNumber * Z :=
  let '(score, aceCount) := st in
  if negb (isNaN (value card)) then
    (add score (if loose_eq_zero (value card) then Num 10 else parseInt (value card)),
     aceCount)
  else if loose_eq_string (value card) "KING"
          || loose_eq_string (value card) "QUEEN"
          || loose_eq_string (value card) "JACK" then
    (add score (Num 10), aceCount)
  else
    (add score (Num 11), aceCount + 1).

(** What the callback adds for one card: the amount and the number of
    aces, read off a run from [(0, 0)]. *)
Definition contribution (card : Card) : JsNumber * Z :=
  forEach_body (Num 0, 0) card.

Definition while_guard (st : JsNumber * Z) : bool :=
  gt (fst st) (Num 21) && (snd st >? 0).

Definition while_body (st : JsNumber * Z) : JsNumber * Z :=
  (sub (fst st) (Num 10), snd st - 1).

(** [while (score > 21 && aceCount > 0) { score -= 10; aceCount -= 1; }]
    run for at most [fuel] iterations. *)
Fixpoint while_loop (fuel : nat) (st : JsNumber * Z) : JsNumber * Z :=
  match fuel with
  | O => st
  | S fuel' => if while_guard st then while_loop fuel' (while_body st) else st
  end.

(** The body of [scorePlayer] once the pile is chosen.  Each iteration of
    the loop decrements [aceCount], so [aceCount] iterations are enough
    (see [while_loop_exits]). *)
Definition score (pile : list Card) : JsNumber :=
  let st := fold_left forEach_body pile (Num 0, 0) in
  fst (while_loop (Z.to_nat (snd st)) st).

Definition scorePlayer (game : Game) (player : string) : JsNumber :=
  let pile := if String.eqb player PLAYER then playerPile game else dealerPile game in
  score pile.

End Score.

Import Score.

(** ** A state monad with exceptions

    [M S A] is a computation over a state [S] that returns an [A] or
    throws ([None]).  A throw keeps the state reached so far: nothing in
    the program rolls an effect back.  [await] is sequencing. *)

Definition M (S A : Type) : Type := S -> option A * S.

#[global] Instance M_ret {S} : MRet (M S) := fun A a s => (Some a, s).

#[global] Instance M_bind {S} : MBind (M S) := fun A B f m s =>
  match m s with
  | (Some a, s') => f a s'
  | (None, s') => (None, s')
  end.

Definition throw {S A} : M S A := fun s => (None, s).
Definition get {S} : M S S := fun s => (Some s, s).
Definition modify {S} (f : S -> S) : M S unit := fun s => (Some tt, f s).

(** ** The server: session store, Card Source and routes *)

Module Server.

(** A row of the table [games], keyed by [gameName]. *)
Record Row : Type := mkRow {
  row_deckId : DeckId;
  row_gamesWon : Z;
  row_gamesLost : Z
}.

(** A deck of the Card Source: the cards not drawn yet and its piles. *)
Record Deck : Type := mkDeck {
  remaining : list Card;
  piles : gmap string (list Card)
}.

(** The requests sent to the Card Source, in the order they were made. *)
Inductive Request : Type :=
  | NewShuffle (id : DeckId)
  | DrawOne (id : DeckId) (c : Card)
  | PileAdd (id : DeckId) (hand : string) (c : Card)
  | PileList (id : DeckId) (hand : string).

(** Modelled from the spec: the table [games] (its schema is not in the
    repository) holds at most one row per [gameName], with columns
    [deckId], [gamesWon] and [gamesLost], the counters being zero when a
    row is inserted without them.  The Card Source is the oracle of the
    spec: [shuffle] is the order it gives to each deck it mints and
    [minted] the number of decks minted so far. *)
Record World : Type := mkWorld {
  games : gmap string Row;
  decks : gmap DeckId Deck;
  minted : N;
  shuffle : N -> list Card;
  requests : list Request
}.

Definition set_games (f : gmap string Row -> gmap string Row) (w : World) : World :=
  mkWorld (f (games w)) (decks w) (minted w) (shuffle w) (requests w).

Definition set_decks (f : gmap DeckId Deck -> gmap DeckId Deck) (w : World) : World :=
  mkWorld (games w) (f (decks w)) (minted w) (shuffle w) (requests w).

Definition sent (r : Request) (w : World) : World :=
  mkWorld (games w) (decks w) (minted w) (shuffle w) (requests w ++ [r]).

(** [GET apiEndpoint/new/shuffle/?deck_count=1], the [deck_id] of the answer. *)
Definition newShuffledDeck : M World DeckId := fun w =>
  let id := minted w in
  (Some id,
   sent (NewShuffle id)
     (mkWorld (games w) (<[id := mkDeck (shuffle w id) ∅]> (decks w))
              (N.succ id) (shuffle w) (requests w))).

(** [GET apiEndpoint/deckId/draw/?count=1], then [cards[0]]: an unknown
    or exhausted deck has no such card and the caller throws. *)
Definition drawOne (deckId : DeckId) : M World Card := fun w =>
  match decks w !! deckId with
  | Some (mkDeck (c :: rest) ps) =>
      (Some c, sent (DrawOne deckId c) (set_decks <[deckId := mkDeck rest ps]> w))
  | _ => (None, w)
  end.

(** [GET apiEndpoint/deckId/pile/hand/add/?cards=code]: the card goes to
    the end of the pile. *)
Definition addToPile (deckId : DeckId) (hand : string) (c : Card) : M World unit := fun w =>
  match decks w !! deckId with
  | Some (mkDeck rest ps) =>
      (Some tt,
       sent (PileAdd deckId hand c)
         (set_decks <[deckId := mkDeck rest (<[hand := default [] (ps !! hand) ++ [c]]> ps)]> w))
  | None => (None, w)
  end.

Definition drawCardToHand (deckId : DeckId) (hand : string) : M World unit :=
  c ← drawOne deckId;
  addToPile deckId hand c.

(** [GET apiEndpoint/deckId/pile/hand/list], then [res.piles[hand]]; the
    request for a deck or a pile that does not exist is a failed call. *)
Definition getPileData (deckId : DeckId) (hand : string) : M World (list Card) := fun w =>
  match decks w !! deckId with
  | Some d =>
      match piles d !! hand with
      | Some cards => (Some cards, sent (PileList deckId hand) w)
      | None => (None, w)
      end
  | None => (None, w)
  end.

(** [SELECT gameName, deckId, gamesWon, gamesLost FROM games WHERE gameName = ?] *)
Definition selectGame (name : string) : M World (option Row) := fun w =>
  (Some (games w !! name), w).

(** [INSERT INTO games (gameName, deckId) VALUES (?, ?)] *)
Definition insertGame (name : string) (deckId : DeckId) : M World unit :=
  modify (set_games <[name := mkRow deckId 0 0]>).

(** [UPDATE games SET deckId = ?, gamesWon = gamesWon + 1 WHERE gameName = ?] *)
Definition updateWon (deckId : DeckId) (name : string) : M World unit :=
  modify (set_games (alter (fun r => mkRow deckId (row_gamesWon r + 1) (row_gamesLost r)) name)).

(** [UPDATE games SET deckId = ?, gamesLost = gamesLost + 1 WHERE gameName = ?] *)
Definition updateLost (deckId : DeckId) (name : string) : M World unit :=
  modify (set_games (alter (fun r => mkRow deckId (row_gamesWon r) (row_gamesLost r + 1)) name)).

(** [app.get('/game/:gameName/getOrCreate', ...)] *)
Definition getOrCreate (gameName : string) : M World Game :=
  response ← selectGame gameName;
  match response with
  | None =>
      deckId ← newShuffledDeck;
      insertGame gameName deckId;;
      drawCardToHand deckId "player";;
      drawCardToHand deckId "dealer";;
      drawCardToHand deckId "player";;
      drawCardToHand deckId "dealer";;
      playerPileData ← getPileData deckId "player";
      dealerPileData ← getPileData deckId "dealer";
      mret (mkGame gameName deckId 0 0 dealerPileData playerPileData ∅)
  | Some row =>
      let deckId := row_deckId row in
      playerPileData ← getPileData deckId "player";
      dealerPileData ← getPileData deckId "dealer";
      mret (mkGame gameName deckId (row_gamesWon row) (row_gamesLost row)
                   dealerPileData playerPileData ∅)
  end.

(** [app.get('/game/:deckId/draw/:player', ...)] *)
Definition draw (deckId : DeckId) (player : string) : M World (list Card) :=
  drawCardToHand deckId player;;
  getPileData deckId player.

(** [app.get('/game/:gameName/endGame/:winner', ...)]; [response[0]] of an
    empty result is [undefined] and reading its counters throws. *)
Definition endGame (gameName : string) (winner : string) : M World Game :=
  deckId ← newShuffledDeck;
  (if String.eqb winner "player"
   then updateWon deckId gameName
   else updateLost deckId gameName);;
  drawCardToHand deckId "player";;
  drawCardToHand deckId "dealer";;
  drawCardToHand deckId "player";;
  drawCardToHand deckId "dealer";;
  playerPileData ← getPileData deckId "player";
  dealerPileData ← getPileData deckId "dealer";
  response ← selectGame gameName;
  match response with
  | Some row =>
      mret (mkGame gameName deckId (row_gamesWon row) (row_gamesLost row)
                   dealerPileData playerPileData ∅)
  | None => throw
  end.

(** The requests of an opening deal of the cards [c1], [c2], [c3], [c4],
    and the piles of the deck after it. *)
Definition dealt (id : DeckId) (c1 c2 c3 c4 : Card) : list Request :=
  [DrawOne id c1; PileAdd id "player" c1; DrawOne id c2; PileAdd id "dealer" c2;
   DrawOne id c3; PileAdd id "player" c3; DrawOne id c4; PileAdd id "dealer" c4;
   PileList id "player"; PileList id "dealer"].

Definition dealtPiles (c1 c2 c3 c4 : Card) : gmap string (list Card) :=
  <["dealer" := [c2; c4]]> (<["player" := [c1; c3]]> ∅).

(** The row of a game after the [UPDATE] of a round end. *)
Definition updated (id : DeckId) (winner : string) (row : Row) : Row :=
  if String.eqb winner "player"
  then mkRow id (row_gamesWon row + 1) (row_gamesLost row)
  else mkRow id (row_gamesWon row) (row_gamesLost row + 1).

(** A computation that leaves the table [games] as it found it. *)
Definition keepsGames {A} (m : M World A) : Prop :=
  forall w, games (snd (m w)) = games w.

End Server.

(** ** The client: the game state machine in the browser *)

Module Client.

(** The notifications shown with [alert]. *)
Inductive Alert : Type :=
  | YouWin (player dealer : JsNumber)    (* `You win. ${player} to ${dealer}` *)
  | YouLose (player dealer : JsNumber)   (* `You lose. ${player} to ${dealer}` *)
  | YouLoseScore (player : JsNumber)     (* `You lose, score = ` + player *)
  | YouWin21.                            (* 'You win, score = 21' *)

(** The tab: the global [game], the server it talks to and the alerts
    shown so far. *)
Record Browser : Type := mkBrowser {
  game : Game;
  server : Server.World;
  alerts : list Alert
}.

Definition set_game (f : Game -> Game) (b : Browser) : Browser :=
  mkBrowser (f (game b)) (server b) (alerts b).

(** [await fetch(route)] followed by [await response.json()]: the route
    runs on the server; when it throws there is no JSON to read and the
    caller does not go on. *)
Definition fetch {A} (route : M Server.World A) : M Browser A := fun b =>
  let '(r, w) := route (server b) in
  (r, mkBrowser (game b) w (alerts b)).

Definition alert (a : Alert) : M Browser unit :=
  modify (fun b => mkBrowser (game b) (server b) (alerts b ++ [a])).

Definition initGame : M Browser unit :=
  modify (set_game (fun g => set_score PLAYER (scorePlayer g PLAYER) g));;
  modify (set_game (fun g => set_score DEALER (scorePlayer g DEALER) g)).

(** [createOrJoinGame] with the name typed in the input.  The name is
    put in the URL as it is typed: the route receives it unchanged when
    it is made of letters, digits, [-] and [_] (a plain name). *)
Definition createOrJoinGame (gameName : string) : M Browser unit :=
  gameData ← fetch (Server.getOrCreate gameName);
  modify (set_game (fun _ => gameData));;
  initGame.

(** The client's [endGame]; [game.gameName] goes in the URL as it is,
    see [createOrJoinGame]. *)
Definition endGame (gameWinner : string) : M Browser unit :=
  g ← get;
  gameData ← fetch (Server.endGame (gameName (game g)) gameWinner);
  modify (set_game (fun _ => gameData));;
  initGame.

(** [hit], with the callback given to [setTimeout] run after it. *)
Definition hit : M Browser unit :=
  b ← get;
  playerPile ← fetch (Server.draw (deckId (game b)) "player");
  modify (set_game (set_playerPile playerPile));;
  modify (set_game (fun g => set_score PLAYER (scorePlayer g PLAYER) g));;
  b ← get;
  if gt (score_of (game b) PLAYER) (Num 21) then
    alert (YouLoseScore (score_of (game b) PLAYER));;
    endGame DEALER
  else if decide (score_of (game b) PLAYER = Num 21) then
    alert YouWin21;;
    endGame PLAYER
  else mret tt.

(** One iteration of the loop of [stand]. *)
Definition dealerDraw : M Browser unit :=
  b ← get;
  dealerPile ← fetch (Server.draw (deckId (game b)) "dealer");
  modify (set_game (set_dealerPile dealerPile));;
  modify (set_game (fun g => set_score DEALER (scorePlayer g DEALER) g)).

(** [while (game.scores[DEALER] < 17) { ... }] run for at most [fuel]
    iterations. *)
Fixpoint dealerLoop (fuel : nat) : M Browser unit := fun b =>
  if lt (score_of (game b) DEALER) (Num 17) then
    match fuel with
    | O => (Some tt, b)
    | S fuel' => (dealerDraw;; dealerLoop fuel') b
    end
  else (Some tt, b).

(** The callback [stand] gives to [setTimeout]: determine the winner. *)
Definition determineWinner : M Browser unit :=
  b ← get;
  let dealer := score_of (game b) DEALER in
  let player := score_of (game b) PLAYER in
  if gt dealer (Num 21) || lt dealer player then
    alert (YouWin player dealer);;
    endGame PLAYER
  else
    alert (YouLose player dealer);;
    endGame DEALER.

(** The cards left in the deck the game draws from. *)
Definition cardsLeft (b : Browser) : nat :=
  match Server.decks (server b) !! deckId (game b) with
  | Some d => length (Server.remaining d)
  | None => O
  end.

(** [stand].  Every iteration of the loop takes a card from the deck or
    throws, so one iteration more than there are cards left is enough
    (see [dealerLoop_exits]). *)
Definition stand : M Browser unit := fun b =>
  (dealerLoop (S (cardsLeft b));; determineWinner) b.

(** The cards the dealer holds or can still draw: the dealer's pile on
    the server followed by what is left of the deck. *)
Definition dealerCards (b : Browser) : list Card :=
  match Server.decks (server b) !! deckId (game b) with
  | Some d => default [] (Server.piles d !! "dealer") ++ Server.remaining d
  | None => []
  end.

(** The two ways [stand] ends a round. *)
Definition playerWins (player dealer : JsNumber) : M Browser unit :=
  alert (YouWin player dealer);;
  endGame PLAYER.

Definition dealerWins (player dealer : JsNumber) : M Browser unit :=
  alert (YouLose player dealer);;
  endGame DEALER.

End Client.

(** ** The specification's data model and score rule *)

Module Spec.

(** The ranks of the specification's [Card]. *)
Inductive Rank : Type :=
  | Number (n : Z)
  | Jack
  | Queen
  | King
  | Ace.

#[global] Instance Rank_eq_dec : EqDecision Rank.
Proof. solve_decision. Defined.

(** The strings that spell a numeric rank, the ten being sent as [0]. *)
Definition numerals : list (string * Z) :=
  [("0", 0); ("2", 2); ("3", 3); ("4", 4); ("5", 5); ("6", 6);
   ("7", 7); ("8", 8); ("9", 9); ("10", 10)]%string.

Definition number_rank (z : Z) : option Rank :=
  if z =? 0 then Some (Number 10)
  else if (2 <=? z) && (z <=? 10) then Some (Number z)
  else None.

(** The rank a [value] stands for: one of 2..10 (the ten as 10 or as 0,
    each as a number or as its numeral) or one of the four names. *)
Definition rank_of (v : JsValue) : option Rank :=
  match v with
  | JsNum z => number_rank z
  | JsStr s =>
      if String.eqb s "JACK" then Some Jack
      else if String.eqb s "QUEEN" then Some Queen
      else if String.eqb s "KING" then Some King
      else if String.eqb s "ACE" then Some Ace
      else
        match find (fun p => String.eqb s (fst p)) numerals with
        | Some (_, z) => number_rank z
        | None => None
        end
  | _ => None
  end.

(** The ranks of a pile all of whose cards are cards of the data model. *)
Definition ranks_of (pile : list Card) : option (list Rank) :=
  mapM (fun c => rank_of (value c)) pile.

Definition wellFormed (pile : list Card) : Prop := is_Some (ranks_of pile).

(** Step 2 of the score rule: what one card adds. *)
Definition points (r : Rank) : Z :=
  match r with
  | Number n => n
  | Jack | Queen | King => 10
  | Ace => 11
  end.

Definition isAce (r : Rank) : bool :=
  match r with Ace => true | _ => false end.

Fixpoint scan (pile : list Rank) (total : Z) (aceCount : nat) : Z * nat :=
  match pile with
  | [] => (total, aceCount)
  | r :: rest =>
      scan rest (total + points r) (if isAce r then S aceCount else aceCount)
  end.

(** Step 3: while the total exceeds 21 and aces remain, one ace goes from
    11 to 1. *)
Fixpoint reconcile (total : Z) (aceCount : nat) : Z :=
  match aceCount with
  | O => total
  | S aces => if total >? 21 then reconcile (total - 10) aces else total
  end.

Definition score (pile : list Rank) : Z :=
  let '(total, aceCount) := scan pile 0 O in
  reconcile total aceCount.

(** Every total a pile can be counted as: an ace is 1 or 11, any other
    card its fixed value. *)
Fixpoint totals (pile : list Rank) : list Z :=
  match pile with
  | [] => [0]
  | r :: rest =>
      if isAce r
      then map (Z.add 1) (totals rest) ++ map (Z.add 11) (totals rest)
      else map (Z.add (points r)) (totals rest)
  end.




(** The number of aces of a pile. *)
Definition aces (pile : list Rank) : nat := length (filter isAce pile).

(** The total with every ace counted as 1. *)
Definition hardTotal (pile : list Rank) : Z :=
  fold_right (fun r acc => (if isAce r then 1 else points r) + acc) 0 pile.

End Spec.

(** ** The score in closed form, and what client and server share *)

Module Session.

Import Spec.

(** The usual way to count a hand: every ace low, and ten more when
    there is an ace and the ten fits under 21. *)
Definition handValue (ranks : list Rank) : Z :=
  if (0 <? aces ranks)%nat && (hardTotal ranks <=? 11)
  then hardTotal ranks + 10
  else hardTotal ranks.

(** The ranks of the data model are worth 1 to 10 with the ace low. *)
Definition lowRanks (ranks : list Rank) : Prop :=
  Forall (fun r => 1 <= (if isAce r then 1 else points r) <= 10) ranks.

(** What a card is worth with the ace low. *)
Definition lowValue (r : Rank) : Z := if isAce r then 1 else points r.

(** A pile one ace of which counts as 11: it holds an ace and its total
    with every ace low is at most 11. *)
Definition soft (ranks : list Rank) : Prop :=
  (0 < aces ranks)%nat /\ hardTotal ranks <= 11.

(** A name that a URL carries unchanged: not empty, made of letters,
    digits, [-] and [_]. *)
Definition plainChar (c : ascii) : bool :=
  let n := code c in
  ((48 <=? n) && (n <=? 57)) || ((65 <=? n) && (n <=? 90))
  || ((97 <=? n) && (n <=? 122)) || (n =? 45) || (n =? 95).

Definition plainName (s : string) : bool :=
  negb (String.eqb s "") && forallb plainChar (list_ascii_of_string s).

(** A numeric value that [parseInt] cannot read: [isNaN] is false, the
    value is not [== 0], and [parseInt] gives [NaN]. *)
Definition unreadable (v : JsValue) : Prop :=
  isNaN v = false /\ loose_eq_zero v = false /\ parseInt v = NaN.

(** The pile [hand] of the deck [id] on the Card Source. *)
Definition serverPile (w : Server.World) (id : DeckId) (hand : string)
    : option (list Card) :=
  d ← Server.decks w !! id; Server.piles d !! hand.

(** The cards of the deck [id] that are not drawn yet. *)
Definition serverDeck (w : Server.World) (id : DeckId) : option (list Card) :=
  Server.remaining <$> Server.decks w !! id.

(** A computation that leaves one component of the server as it found
    it, whether it returns or throws. *)
Definition keeps {A B} (proj : Server.World -> B) (m : M Server.World A) : Prop :=
  forall w, proj (snd (m w)) = proj w.

(** A computation that only adds to the log of requests. *)
Definition appends {A} (m : M Server.World A) : Prop :=
  forall w, exists more, Server.requests (snd (m w)) = Server.requests w ++ more.

(** The snapshot [g] is what the server holds: the row of the game names
    the deck and the counters of [g], and the piles of that deck are the
    piles of [g]. *)
Definition snapshotOf (w : Server.World) (g : Game) : Prop :=
  Server.games w !! gameName g
  = Some (Server.mkRow (deckId g) (gamesWon g) (gamesLost g))
  /\ serverPile w (deckId g) "player" = Some (playerPile g)
  /\ serverPile w (deckId g) "dealer" = Some (dealerPile g).

(** The two scores of [g] are the scores of its piles. *)
Definition scored (g : Game) : Prop :=
  scores g !! PLAYER = Some (Score.score (playerPile g))
  /\ scores g !! DEALER = Some (Score.score (dealerPile g)).

(** The game once [initGame] has scored it. *)
Definition rescored (g : Game) : Game :=
  set_score DEALER (Score.score (dealerPile g))
            (set_score PLAYER (Score.score (playerPile g)) g).

(** The tab shows the game as the server holds it, with scores computed
    from the piles shown. *)
Definition inSync (b : Client.Browser) : Prop :=
  snapshotOf (Client.server b) (Client.game b) /\ scored (Client.game b).

(** What the dealer's turn may change between two states of the tab:
    the dealer's pile and score, and on the server the dealer's pile, the
    deck and the log.  The rest is the same. *)
Definition dealerOnly (b b' : Client.Browser) : Prop :=
  gameName (Client.game b') = gameName (Client.game b)
  /\ deckId (Client.game b') = deckId (Client.game b)
  /\ playerPile (Client.game b') = playerPile (Client.game b)
  /\ score_of (Client.game b') PLAYER = score_of (Client.game b) PLAYER
  /\ Client.alerts b' = Client.alerts b
  /\ Server.games (Client.server b') = Server.games (Client.server b)
  /\ Server.minted (Client.server b') = Server.minted (Client.server b)
  /\ serverPile (Client.server b') (deckId (Client.game b)) "player"
     = serverPile (Client.server b) (deckId (Client.game b)) "player"
  /\ Client.dealerCards b' = Client.dealerCards b.

(** The dealer's pile and the deck of the game on the server, empty when
    there is none. *)
Definition dealerPileOf (b : Client.Browser) : list Card :=
  default [] (serverPile (Client.server b) (deckId (Client.game b)) "dealer").

Definition deckOf (b : Client.Browser) : list Card :=
  default [] (serverDeck (Client.server b) (deckId (Client.game b))).

(** The dealer's score that the loop of [stand] tests before it draws
    the card number [k] of [drawn] (counting from 0): the score stored in
    the game at first, then the score of the pile with the cards drawn. *)
Definition scoreBeforeDraw (b : Client.Browser) (drawn : list Card) (k : nat) : JsNumber :=
  match k with
  | O => score_of (Client.game b) DEALER
  | S _ => Score.score (dealerPileOf b ++ take k drawn)
  end.

End Session.

(** ** Sample cards, a sample server and a sample tab *)

Module Sample.

Definition king : Card := mkCard (JsStr "KING") "SPADES".
Definition queen : Card := mkCard (JsStr "QUEEN") "HEARTS".
Definition ace : Card := mkCard (JsStr "ACE") "SPADES".
Definition ace' : Card := mkCard (JsStr "ACE") "CLUBS".
Definition nine : Card := mkCard (JsStr "9") "DIAMONDS".
Definition six : Card := mkCard (JsStr "6") "CLUBS".
Definition five : Card := mkCard (JsNum 5) "HEARTS".
Definition two : Card := mkCard (JsStr "2") "CLUBS".

(** A Card Source that shuffles every deck the same way. *)
Definition shuffled : list Card := [king; two; nine; six; five; queen; ace].

(** A server that stores the game [table] and has minted one deck. *)
Definition world : Server.World :=
  Server.mkWorld {["table" := Server.mkRow 0%N 3 4]}
                 {[0%N := Server.mkDeck [five; queen; ace]
                                        (Server.dealtPiles king two nine six)]}
                 1%N (fun _ => shuffled) [].

(** The tab of a player of [table] who holds 19 against the dealer's 8. *)
Definition browser : Client.Browser :=
  Client.mkBrowser
    (mkGame "table" 0%N 3 4 [two; six] [king; nine]
            {["player" := Num 19; "dealer" := Num 8]})
    world [].

Definition infinity : Card := mkCard (JsStr "Infinity") "SPADES".
Definition blank : Card := mkCard JsUndefined "HEARTS".

(** A server on which the deck of [table] has no card left, and the tab
    of its player. *)
Definition spentWorld : Server.World :=
  Server.mkWorld {["table" := Server.mkRow 0%N 3 4]}
                 {[0%N := Server.mkDeck [] (Server.dealtPiles king two nine six)]}
                 1%N (fun _ => shuffled) [].

Definition spent : Client.Browser :=
  Client.mkBrowser
    (mkGame "table" 0%N 3 4 [two; six] [king; nine]
            {["player" := Num 19; "dealer" := Num 8]})
    spentWorld [].

(** A tab whose dealer holds a card with an unreadable value. *)
Definition poisoned : Client.Browser :=
  Client.mkBrowser
    (mkGame "table" 0%N 3 4 [two; infinity] [king; nine]
            {["player" := Num 19; "dealer" := NaN]})
    world [].

(** A tab on a deck with seventeen twos left. *)
Definition twos : Client.Browser :=
  Client.mkBrowser
    (mkGame "table" 0%N 3 4 [two; six] [king; nine]
            {["player" := Num 19; "dealer" := Num 8]})
    (Server.mkWorld {["table" := Server.mkRow 0%N 3 4]}
                    {[0%N := Server.mkDeck (replicate 17 two)
                                           (Server.dealtPiles king two nine six)]}
                    1%N (fun _ => shuffled) [])
    [].

End Sample.

Import Spec.

(** * Properties of the score engine *)

Section ScoreEngine.

Implicit Types (pile : list Card) (card : Card) (st : JsNumber * Z).

(** ** The arithmetic of [JsNumber] *)

Lemma add_comm (a b : JsNumber) : add a b = add b a.
Proof. destruct a, b; simpl; f_equal; lia. Qed.

Lemma add_assoc (a b c : JsNumber) : add (add a b) c = add a (add b c).
Proof. destruct a, b, c; simpl; f_equal; lia. Qed.

(** ** The loop of [scorePlayer] stops by itself *)

(** With [aceCount] iterations allowed the loop ends because its
    condition fails, not because the iterations ran out. *)
Lemma while_loop_exits (fuel : nat) st :
  (Z.to_nat (snd st) <= fuel)%nat -> while_guard (while_loop fuel st) = false.
Proof.
  revert st. induction fuel as [|fuel IH]; intros [s a] Hfuel; simpl in *.
  - unfold while_guard; simpl.
    destruct (gt s (Num 21)); simpl; [|reflexivity].
    rewrite Z.gtb_ltb. apply Z.ltb_ge. lia.
  - destruct (while_guard (s, a)) eqn:Hg; [|exact Hg].
    apply IH. unfold while_guard in Hg; simpl in *.
    apply andb_true_iff in Hg as [_ Ha]. apply Z.gtb_lt in Ha. lia.
Qed.

(** More iterations than [aceCount] change nothing. *)
Lemma while_loop_reconcile (aces : nat) (total : Z) :
  while_loop aces (Num total, Z.of_nat aces)
  = (Num (reconcile total aces), snd (while_loop aces (Num total, Z.of_nat aces))).
Proof.
  revert total. induction aces as [|aces IH]; intros total; [reflexivity|].
  cbn [while_loop reconcile]. unfold while_guard, while_body. cbn [fst snd gt sub].
  destruct (total >? 21) eqn:Hgt; cbn [andb].
  - replace (Z.of_nat (S aces) >? 0) with true by (symmetry; apply Z.gtb_lt; lia).
    replace (Z.of_nat (S aces) - 1) with (Z.of_nat aces) by lia.
    apply IH.
  - reflexivity.
Qed.

(** ** What one card adds *)

Lemma add_zero_l (a : JsNumber) : add (Num 0) a = a.
Proof. destruct a; reflexivity. Qed.

Lemma forEach_body_contribution st card :
  forEach_body st card
  = (add (fst st) (fst (contribution card)), snd st + snd (contribution card)).
Proof.
  destruct st as [s a]. unfold contribution, forEach_body. cbn [fst snd].
  destruct (negb (isNaN (value card)));
    [|destruct (loose_eq_string (value card) "KING"
               || loose_eq_string (value card) "QUEEN"
               || loose_eq_string (value card) "JACK")];
    cbn [fst snd]; rewrite ?add_zero_l; f_equal; lia.
Qed.

Lemma forEach_body_swap st (c1 c2 : Card) :
  forEach_body (forEach_body st c1) c2 = forEach_body (forEach_body st c2) c1.
Proof.
  rewrite !(forEach_body_contribution _ c2), !(forEach_body_contribution _ c1).
  cbn [fst snd]. rewrite !add_assoc, (add_comm (fst (contribution c1))).
  f_equal. lia.
Qed.

Lemma forEach_permutation pile pile' st :
  Permutation pile pile' ->
  fold_left forEach_body pile st = fold_left forEach_body pile' st.
Proof.
  intros Hp. revert st.
  induction Hp as [|c l l' _ IH|c1 c2 l|l1 l2 l3 _ IH1 _ IH2]; intros st; simpl.
  - reflexivity.
  - apply IH.
  - now rewrite forEach_body_swap.
  - now rewrite IH1.
Qed.

(** ** Cards of the data model *)

Lemma contribution_rank card (r : Rank) :
  rank_of (value card) = Some r ->
  contribution card = (Num (points r), if isAce r then 1 else 0).
Proof.
  destruct card as [[z|s| | |b|l] su]; unfold contribution; cbn [value rank_of];
    try discriminate.
  - unfold number_rank, forEach_body. cbn [value isNaN negb loose_eq_zero parseInt add].
    destruct (z =? 0) eqn:Hz.
    + intros [= <-]. reflexivity.
    + destruct ((2 <=? z) && (z <=? 10)); [|discriminate].
      intros [= <-]. reflexivity.
  - destruct (String.eqb_spec s "JACK") as [->|_]; [intros [= <-]; reflexivity|].
    destruct (String.eqb_spec s "QUEEN") as [->|_]; [intros [= <-]; reflexivity|].
    destruct (String.eqb_spec s "KING") as [->|_]; [intros [= <-]; reflexivity|].
    destruct (String.eqb_spec s "ACE") as [->|_]; [intros [= <-]; reflexivity|].
    unfold numerals, find. cbn [fst].
    repeat (match goal with
            | |- context [String.eqb s ?n] =>
                destruct (String.eqb_spec s n) as [->|_];
                [vm_compute; intros [= <-]; reflexivity|]
            end).
    discriminate.
Qed.

Lemma forEach_scan pile (ranks : list Rank) (total : Z) (aces : nat) :
  ranks_of pile = Some ranks ->
  fold_left forEach_body pile (Num total, Z.of_nat aces)
  = (Num (fst (scan ranks total aces)), Z.of_nat (snd (scan ranks total aces))).
Proof.
  unfold ranks_of. rewrite mapM_Some. intros H. revert total aces.
  induction H as [|c r pile ranks Hr _ IH]; intros total aces; [reflexivity|].
  cbn [fold_left scan]. rewrite forEach_body_contribution, (contribution_rank _ _ Hr).
  cbn [fst snd add].
  replace (Z.of_nat aces + (if isAce r then 1 else 0))
    with (Z.of_nat (if isAce r then S aces else aces)) by (destruct (isAce r); lia).
  apply IH.
Qed.

Lemma score_ranks pile (ranks : list Rank) :
  ranks_of pile = Some ranks -> Score.score pile = Num (Spec.score ranks).
Proof.
  intros H. unfold Score.score, Spec.score.
  pose proof (forEach_scan pile ranks 0 0 H) as E.
  change (Z.of_nat 0) with 0 in E. rewrite E. clear E.
  destruct (scan ranks 0 0) as [total aces]. cbn [fst snd].
  rewrite Nat2Z.id, while_loop_reconcile. reflexivity.
Qed.

End ScoreEngine.

(** * The score rule on ranks *)

Section ScoreRule.

Implicit Types (ranks : list Rank) (r : Rank).

Lemma aces_cons r ranks :
  aces (r :: ranks) = ((if isAce r then 1 else 0) + aces ranks)%nat.
Proof. unfold aces. simpl. unfold filter. simpl. destruct (isAce r); reflexivity. Qed.

Lemma hardTotal_cons r ranks :
  hardTotal (r :: ranks) = (if isAce r then 1 else points r) + hardTotal ranks.
Proof. reflexivity. Qed.

Lemma scan_total ranks (total : Z) (aceCount : nat) :
  scan ranks total aceCount
  = (total + hardTotal ranks + 10 * Z.of_nat (aces ranks), (aceCount + aces ranks)%nat).
Proof.
  revert total aceCount.
  induction ranks as [|r ranks IH]; intros total aceCount.
  - unfold aces. simpl. f_equal; lia.
  - cbn [scan]. rewrite IH, aces_cons, hardTotal_cons.
    destruct r; cbn [isAce points]; f_equal; lia.
Qed.

Lemma score_reconcile ranks :
  Spec.score ranks
  = reconcile (hardTotal ranks + 10 * Z.of_nat (aces ranks)) (aces ranks).
Proof.
  unfold Spec.score. rewrite scan_total. f_equal.
Qed.

(** The totals a pile can be counted as are the hard total plus ten for
    each ace counted high. *)
Lemma In_totals ranks (t : Z) :
  In t (totals ranks)
  <-> exists k : nat, (k <= aces ranks)%nat /\ t = hardTotal ranks + 10 * Z.of_nat k.
Proof.
  revert t. induction ranks as [|r ranks IH]; intros t.
  - simpl. split.
    + intros [<-|[]]. exists O. unfold aces. simpl. split; lia.
    + intros (k & Hk & ->). unfold aces in Hk. simpl in Hk. left. lia.
  - cbn [totals]. rewrite aces_cons, hardTotal_cons.
    destruct (isAce r) eqn:Hr.
    + rewrite in_app_iff, !in_map_iff. split.
      * intros [(u & <- & Hu)|(u & <- & Hu)]; apply IH in Hu as (k & Hk & ->).
        -- exists k. split; lia.
        -- exists (S k). split; lia.
      * intros (k & Hk & ->).
        destruct (decide (k <= aces ranks)%nat) as [Hle|Hgt].
        -- left. exists (hardTotal ranks + 10 * Z.of_nat k). split; [lia|].
           apply IH. eauto.
        -- right. exists (hardTotal ranks + 10 * Z.of_nat (k - 1)). split; [lia|].
           apply IH. exists (k - 1)%nat. split; [lia|reflexivity].
    + rewrite in_map_iff. split.
      * intros (u & <- & Hu). apply IH in Hu as (k & Hk & ->).
        exists k. split; lia.
      * intros (k & Hk & ->). exists (hardTotal ranks + 10 * Z.of_nat k).
        split; [lia|]. apply IH. exists k. split; [lia|reflexivity].
Qed.

(** The loop stops at the first total, going down from all aces high,
    that is at most 21, or with every ace low. *)
Lemma reconcile_downgrades (hard : Z) (n : nat) :
  exists k : nat,
    (k <= n)%nat
    /\ reconcile (hard + 10 * Z.of_nat n) n = hard + 10 * Z.of_nat k
    /\ (forall j : nat, (k < j <= n)%nat -> 21 < hard + 10 * Z.of_nat j)
    /\ (21 < hard + 10 * Z.of_nat k -> k = O).
Proof.
  induction n as [|n (k & Hk & Hrec & Habove & Hbust)].
  - exists O. simpl. repeat split; try lia.
  - cbn [reconcile]. destruct (hard + 10 * Z.of_nat (S n) >? 21) eqn:Hgt.
    + apply Z.gtb_lt in Hgt. exists k.
      replace (hard + 10 * Z.of_nat (S n) - 10) with (hard + 10 * Z.of_nat n) by lia.
      repeat split; [lia|exact Hrec| |exact Hbust].
      intros j Hj. destruct (decide (j = S n)) as [->|Hne]; [lia|].
      apply Habove. lia.
    + rewrite Z.gtb_ltb in Hgt. apply Z.ltb_ge in Hgt. exists (S n).
      repeat split; lia.
Qed.

Lemma score_in_totals ranks : In (Spec.score ranks) (totals ranks).
Proof.
  rewrite score_reconcile.
  destruct (reconcile_downgrades (hardTotal ranks) (aces ranks)) as (k & Hk & -> & _).
  apply In_totals. eauto.
Qed.

Lemma score_best ranks (t : Z) :
  In t (totals ranks) -> t <= 21 -> t <= Spec.score ranks <= 21.
Proof.
  intros Ht H21. apply In_totals in Ht as (j & Hj & ->).
  rewrite score_reconcile.
  destruct (reconcile_downgrades (hardTotal ranks) (aces ranks))
    as (k & Hk & -> & Habove & Hbust).
  destruct (decide (j <= k)%nat) as [Hle|Hgt].
  - split; [lia|].
    destruct (Z.le_gt_cases (hardTotal ranks + 10 * Z.of_nat k) 21) as [|Hb]; [assumption|].
    specialize (Hbust Hb). lia.
  - specialize (Habove j). lia.
Qed.

Lemma score_bust ranks :
  21 < Spec.score ranks -> Spec.score ranks = hardTotal ranks.
Proof.
  rewrite score_reconcile.
  destruct (reconcile_downgrades (hardTotal ranks) (aces ranks))
    as (k & Hk & -> & _ & Hbust).
  intros Hb. rewrite (Hbust Hb). lia.
Qed.

Lemma hardTotal_least ranks (t : Z) : In t (totals ranks) -> hardTotal ranks <= t.
Proof. intros Ht. apply In_totals in Ht as (k & _ & ->). lia. Qed.

End ScoreRule.

(** * The score engine against the data model *)

Section ScoreClaims.

Implicit Types (pile : list Card) (card : Card) (ranks : list Rank).

Lemma number_rank_range (z : Z) (r : Rank) :
  number_rank z = Some r -> exists n, r = Number n /\ 2 <= n <= 10.
Proof.
  unfold number_rank. destruct (z =? 0).
  - intros [= <-]. exists 10. split; [reflexivity|lia].
  - destruct ((2 <=? z) && (z <=? 10)) eqn:Hr; [|discriminate].
    intros [= <-]. exists z. split; [reflexivity|]. 
    apply andb_true_iff in Hr as [H1 H2].
    apply Z.leb_le in H1, H2. lia.
Qed.

(** A card of the data model is worth at least 1 and at most 10 with
    its ace low. *)
Lemma rank_of_low (v : JsValue) (r : Rank) :
  rank_of v = Some r -> 1 <= (if isAce r then 1 else points r) <= 10.
Proof.
  assert (Hnum : forall z, number_rank z = Some r ->
                           1 <= (if isAce r then 1 else points r) <= 10).
  { intros z Hz. apply number_rank_range in Hz as (n & -> & Hn). simpl. lia. }
  destruct v as [z|s| | |b|l]; cbn [rank_of]; try discriminate; [apply Hnum|].
  repeat (match goal with
          | |- context [String.eqb s ?n] => destruct (String.eqb s n)
          end; [intros [= <-]; simpl; lia|]).
  destruct (find _ numerals) as [[? z]|]; [apply Hnum|discriminate].
Qed.

Lemma ranks_of_app pile ranks card (r : Rank) :
  ranks_of pile = Some ranks -> rank_of (value card) = Some r ->
  ranks_of (pile ++ [card]) = Some (ranks ++ [r]).
Proof.
  unfold ranks_of. rewrite !mapM_Some. intros Hp Hc.
  apply Forall2_app; [exact Hp|]. constructor; [exact Hc|constructor].
Qed.

Lemma hardTotal_app ranks (r : Rank) :
  hardTotal (ranks ++ [r]) = hardTotal ranks + (if isAce r then 1 else points r).
Proof.
  induction ranks as [|r0 ranks IH].
  - simpl. lia.
  - cbn [app]. rewrite !hardTotal_cons, IH. lia.
Qed.

Lemma scorePlayer_PLAYER (game : Game) :
  scorePlayer game PLAYER = Score.score (playerPile game).
Proof. reflexivity. Qed.

Lemma scorePlayer_DEALER (game : Game) :
  scorePlayer game DEALER = Score.score (dealerPile game).
Proof. reflexivity. Qed.

(** C1.  On a pile of cards of the data model, [scorePlayer] returns the
    total of the specification's rule: scan the cards in order, a numeric
    rank adding its face value (the ten being sent as 0 or 10), JACK,
    QUEEN and KING adding 10, ACE adding 11 and counting one more ace;
    then, while the total exceeds 21 and the ace counter is positive,
    take 10 off the total and 1 off the counter. *)
Theorem scorePlayer_follows_rule pile ranks :
  ranks_of pile = Some ranks ->
  Score.score pile = Num (Spec.score ranks)
  /\ (forall game, playerPile game = pile ->
                   scorePlayer game PLAYER = Num (Spec.score ranks))
  /\ (forall game, dealerPile game = pile ->
                   scorePlayer game DEALER = Num (Spec.score ranks)).
Proof.
  intros H. split; [|split].
  - exact (score_ranks pile ranks H).
  - intros game <-. rewrite scorePlayer_PLAYER. exact (score_ranks _ ranks H).
  - intros game <-. rewrite scorePlayer_DEALER. exact (score_ranks _ ranks H).
Qed.

(** C2.  Counting each ACE as 1 or 11 and every other card at its fixed
    value, the score of a pile is one of the totals the pile can be
    counted as; it is the highest of those that are at most 21 when there
    is one, and otherwise the least of them, the one with every ace
    counted as 1. *)
Theorem score_is_best_total pile ranks :
  ranks_of pile = Some ranks ->
  exists s : Z,
    Score.score pile = Num s
    /\ In s (totals ranks)
    /\ ((exists t, In t (totals ranks) /\ t <= 21) ->
        s <= 21 /\ forall t, In t (totals ranks) -> t <= 21 -> t <= s)
    /\ ((forall t, In t (totals ranks) -> 21 < t) ->
        s = hardTotal ranks /\ forall t, In t (totals ranks) -> s <= t).
Proof.
  intros H. exists (Spec.score ranks).
  split; [exact (score_ranks pile ranks H)|].
  split; [apply score_in_totals|]. split.
  - intros (t & Ht & H21). split.
    + apply (score_best ranks t Ht H21).
    + intros u Hu Hu21. apply (score_best ranks u Hu Hu21).
  - intros Hall.
    assert (Hs : Spec.score ranks = hardTotal ranks)
      by (apply score_bust, Hall, score_in_totals).
    split; [exact Hs|]. intros t Ht. rewrite Hs. now apply hardTotal_least.
Qed.

(** C3.  The score of a pile of cards of the data model does not depend
    on the order of its cards: a permutation of the pile is a pile of
    cards of the data model too and has the same score. *)
Theorem score_permutation pile pile' :
  wellFormed pile ->
  Permutation pile pile' ->
  wellFormed pile' /\ Score.score pile' = Score.score pile.
Proof.
  intros Hwf Hp. split.
  - unfold wellFormed, ranks_of in *. rewrite mapM_is_Some in *.
    now rewrite <- Hp.
  - unfold Score.score.
    now rewrite (forEach_permutation pile pile' (Num 0, 0) Hp).
Qed.

End ScoreClaims.

(** * Values the data model does not list *)

Section Values.

Implicit Types (pile : list Card) (card : Card) (st : JsNumber * Z).










End Values.

(** * Running computations *)

Section Monad.

Context {S : Type}.

Lemma bind_run {A B} (m : M S A) (f : A -> M S B) (s s' : S) (a : A) :
  m s = (Some a, s') -> (m ≫= f) s = f a s'.
Proof. intros H. unfold mbind, M_bind. now rewrite H. Qed.

Lemma bind_throw {A B} (m : M S A) (f : A -> M S B) (s s' : S) :
  m s = (None, s') -> (m ≫= f) s = (None, s').
Proof. intros H. unfold mbind, M_bind. now rewrite H. Qed.

(** A sequence that returns has run both of its parts. *)
Lemma bind_returns {A B} (m : M S A) (f : A -> M S B) (s s' : S) (b : B) :
  (m ≫= f) s = (Some b, s') ->
  exists a s1, m s = (Some a, s1) /\ f a s1 = (Some b, s').
Proof.
  unfold mbind, M_bind. destruct (m s) as [[a|] s1]; [eauto|discriminate].
Qed.

End Monad.

(** * The routes of the server *)

Section Routes.

Import Server.

Implicit Types (w : World) (id : DeckId) (hand name winner : string).

Lemma drawCardToHand_run id hand G DS n sh R (c : Card) rest ps (cards : list Card) :
  default [] (ps !! hand) = cards ->
  drawCardToHand id hand (mkWorld G (<[id := mkDeck (c :: rest) ps]> DS) n sh R)
  = (Some tt,
     mkWorld G (<[id := mkDeck rest (<[hand := cards ++ [c]]> ps)]> DS)
             n sh (R ++ [DrawOne id c; PileAdd id hand c])).
Proof.
  intros <-.
  unfold drawCardToHand, mbind, M_bind, drawOne, addToPile, set_decks, sent.
  cbn [decks games minted shuffle requests]. rewrite lookup_insert_eq.
  cbn [decks games minted shuffle requests]. rewrite lookup_insert_eq.
  rewrite !insert_insert_eq, <- app_assoc. reflexivity.
Qed.

Lemma getPileData_run id hand G DS n sh R rest ps (cards : list Card) :
  ps !! hand = Some cards ->
  getPileData id hand (mkWorld G (<[id := mkDeck rest ps]> DS) n sh R)
  = (Some cards, mkWorld G (<[id := mkDeck rest ps]> DS) n sh (R ++ [PileList id hand])).
Proof.
  intros H. unfold getPileData, sent. cbn [decks games minted shuffle requests].
  rewrite lookup_insert_eq. cbn [piles]. rewrite H. reflexivity.
Qed.

Lemma dealtPiles_built (c1 c2 c3 c4 : Card) :
  <["dealer" := [c2] ++ [c4]]>
    (<["player" := [c1] ++ [c3]]>
       (<["dealer" := [] ++ [c2]]> (<["player" := [] ++ [c1]]> ∅)))
  = dealtPiles c1 c2 c3 c4.
Proof.
  unfold dealtPiles. apply map_eq. intros hand.
  destruct (decide (hand = "dealer")) as [->|Hd];
    [|destruct (decide (hand = "player")) as [->|Hp]];
    simplify_map_eq; reflexivity.
Qed.

(** The four draws and the two listings that both routes make on a deck
    just minted. *)
Lemma deal_run {A} id G DS n sh R (c1 c2 c3 c4 : Card) rest
    (k : list Card -> list Card -> M World A) :
  (drawCardToHand id "player";;
   drawCardToHand id "dealer";;
   drawCardToHand id "player";;
   drawCardToHand id "dealer";;
   playerPileData ← getPileData id "player";
   dealerPileData ← getPileData id "dealer";
   k playerPileData dealerPileData)
    (mkWorld G (<[id := mkDeck (c1 :: c2 :: c3 :: c4 :: rest) ∅]> DS) n sh R)
  = k [c1; c3] [c2; c4]
      (mkWorld G (<[id := mkDeck rest (dealtPiles c1 c2 c3 c4)]> DS) n sh
               (R ++ dealt id c1 c2 c3 c4)).
Proof.
  erewrite bind_run by (apply drawCardToHand_run with (cards := []); now simplify_map_eq).
  erewrite bind_run by (apply drawCardToHand_run with (cards := []); now simplify_map_eq).
  erewrite bind_run by (apply drawCardToHand_run with (cards := [c1]); now simplify_map_eq).
  erewrite bind_run by (apply drawCardToHand_run with (cards := [c2]); now simplify_map_eq).
  rewrite dealtPiles_built.
  erewrite bind_run
    by (apply getPileData_run with (cards := [c1; c3]); unfold dealtPiles; now simplify_map_eq).
  erewrite bind_run
    by (apply getPileData_run with (cards := [c2; c4]); unfold dealtPiles; now simplify_map_eq).
  unfold dealt. rewrite <- !app_assoc. reflexivity.
Qed.

Lemma getOrCreate_run w name (c1 c2 c3 c4 : Card) rest :
  games w !! name = None ->
  shuffle w (minted w) = c1 :: c2 :: c3 :: c4 :: rest ->
  getOrCreate name w
  = (Some (mkGame name (minted w) 0 0 [c2; c4] [c1; c3] ∅),
     mkWorld (<[name := mkRow (minted w) 0 0]> (games w))
             (<[minted w := mkDeck rest (dealtPiles c1 c2 c3 c4)]> (decks w))
             (N.succ (minted w)) (shuffle w)
             (requests w ++ NewShuffle (minted w) :: dealt (minted w) c1 c2 c3 c4)).
Proof.
  destruct w as [G DS n sh R]. cbn [games decks minted shuffle requests].
  intros Hnone Hsh. unfold getOrCreate.
  erewrite bind_run by reflexivity. cbn [games]. rewrite Hnone.
  erewrite bind_run by reflexivity.
  erewrite bind_run by reflexivity.
  unfold set_games, sent. cbn [games decks minted shuffle requests].
  rewrite Hsh, deal_run. unfold mret, M_ret.
  rewrite <- app_assoc. reflexivity.
Qed.

Lemma endGame_run w name winner (c1 c2 c3 c4 : Card) rest :
  shuffle w (minted w) = c1 :: c2 :: c3 :: c4 :: rest ->
  Server.endGame name winner w
  = (match games w !! name with
     | Some row =>
         let row' := updated (minted w) winner row in
         Some (mkGame name (minted w) (row_gamesWon row') (row_gamesLost row')
                      [c2; c4] [c1; c3] ∅)
     | None => None
     end,
     mkWorld (alter (updated (minted w) winner) name (games w))
             (<[minted w := mkDeck rest (dealtPiles c1 c2 c3 c4)]> (decks w))
             (N.succ (minted w)) (shuffle w)
             (requests w ++ NewShuffle (minted w) :: dealt (minted w) c1 c2 c3 c4)).
Proof.
  destruct w as [G DS n sh R]. cbn [games decks minted shuffle requests].
  intros Hsh. unfold Server.endGame.
  erewrite bind_run by reflexivity.
  erewrite bind_run with (s' :=
    mkWorld (alter (updated n winner) name G)
            (<[n := mkDeck (sh n) ∅]> DS) (N.succ n) sh (R ++ [NewShuffle n]))
    by (unfold updated; destruct (String.eqb winner "player"); reflexivity).
  rewrite Hsh, deal_run.
  erewrite bind_run by reflexivity. cbn [games].
  rewrite lookup_alter_eq, <- app_assoc.
  destruct (G !! name) as [row|]; reflexivity.
Qed.

(** ** The card requests never touch the table *)

Lemma keepsGames_bind {A B} (m : M World A) (f : A -> M World B) :
  keepsGames m -> (forall a, keepsGames (f a)) -> keepsGames (m ≫= f).
Proof.
  intros Hm Hf w. unfold mbind, M_bind.
  specialize (Hm w). destruct (m w) as [[a|] w1]; cbn [snd] in *.
  - now rewrite Hf.
  - exact Hm.
Qed.

Lemma keepsGames_drawCardToHand id hand : keepsGames (drawCardToHand id hand).
Proof.
  apply keepsGames_bind.
  - intros w. unfold drawOne.
    destruct (decks w !! id) as [[[|c rest] ps]|]; reflexivity.
  - intros c w. unfold addToPile.
    destruct (decks w !! id) as [[rest ps]|]; reflexivity.
Qed.

Lemma keepsGames_getPileData id hand : keepsGames (getPileData id hand).
Proof.
  intros w. unfold getPileData.
  destruct (decks w !! id) as [d|]; [|reflexivity].
  destruct (piles d !! hand); reflexivity.
Qed.

Lemma endGame_games w name winner :
  games (snd (Server.endGame name winner w))
  = alter (updated (minted w) winner) name (games w).
Proof.
  destruct w as [G DS n sh R]. cbn [games minted]. unfold Server.endGame.
  erewrite bind_run by reflexivity.
  erewrite bind_run with (s' :=
    mkWorld (alter (updated n winner) name G)
            (<[n := mkDeck (sh n) ∅]> DS) (N.succ n) sh (R ++ [NewShuffle n]))
    by (unfold updated; destruct (String.eqb winner "player"); reflexivity).
  match goal with |- games (snd (?m ?w)) = _ => change (games (snd (m w)) = games w) end.
  repeat (apply keepsGames_bind;
          [first [apply keepsGames_drawCardToHand | apply keepsGames_getPileData]
          |intros ?]).
  apply keepsGames_bind; [intros ?; reflexivity|].
  intros [row|] ?; reflexivity.
Qed.

(** C7.  A fresh round, dealt by the route that creates a game or by the
    route that ends a round, draws the first four cards of the new deck
    one request after the other, to the player, the dealer, the player
    and the dealer in this order, and leaves two cards in each pile. *)
Theorem fresh_round_deals_alternately w name winner (c1 c2 c3 c4 : Card) rest :
  shuffle w (minted w) = c1 :: c2 :: c3 :: c4 :: rest ->
  (games w !! name = None ->
   exists g w',
     getOrCreate name w = (Some g, w')
     /\ playerPile g = [c1; c3] /\ dealerPile g = [c2; c4]
     /\ requests w' = requests w ++ NewShuffle (minted w) :: dealt (minted w) c1 c2 c3 c4
     /\ decks w' !! minted w = Some (mkDeck rest (dealtPiles c1 c2 c3 c4)))
  /\ (exists r w',
        Server.endGame name winner w = (r, w')
        /\ (forall g, r = Some g -> playerPile g = [c1; c3] /\ dealerPile g = [c2; c4])
        /\ (is_Some (games w !! name) -> is_Some r)
        /\ requests w' = requests w ++ NewShuffle (minted w) :: dealt (minted w) c1 c2 c3 c4
        /\ decks w' !! minted w = Some (mkDeck rest (dealtPiles c1 c2 c3 c4))).
Proof.
  intros Hsh. split.
  - intros Hnone. eexists _, _. split; [apply (getOrCreate_run _ _ _ _ _ _ _ Hnone Hsh)|].
    cbn [playerPile dealerPile requests decks]. rewrite lookup_insert_eq. auto.
  - eexists _, _. split; [apply (endGame_run _ _ _ _ _ _ _ _ Hsh)|].
    cbn [requests decks]. rewrite lookup_insert_eq.
    split; [|split; [|auto]].
    + intros g. destruct (games w !! name); [|discriminate].
      intros [= <-]. auto.
    + intros [row ->]. eauto.
Qed.

(** C8, as amended.  A round end on a stored game adds one to exactly one of its two
    counters, gamesWon when the winner is the player and gamesLost
    otherwise, and binds the row to the deck minted for the request, in
    one update; no other row changes. *)
Theorem round_end_counts_once w name winner (row : Row) :
  games w !! name = Some row ->
  exists id w1 row',
    newShuffledDeck w = (Some id, w1)
    /\ games (snd (Server.endGame name winner w)) !! name = Some row'
    /\ row_deckId row' = id
    /\ ((winner = "player"
         /\ row_gamesWon row' = row_gamesWon row + 1
         /\ row_gamesLost row' = row_gamesLost row)
        \/ (winner <> "player"
            /\ row_gamesWon row' = row_gamesWon row
            /\ row_gamesLost row' = row_gamesLost row + 1))
    /\ (forall other, other <> name ->
          games (snd (Server.endGame name winner w)) !! other = games w !! other).
Proof.
  intros Hrow. eexists _, _, (updated (minted w) winner row).
  split; [reflexivity|]. rewrite endGame_games.
  split; [now rewrite lookup_alter_eq, Hrow|].
  unfold updated. split; [|split].
  - destruct (String.eqb winner "player"); reflexivity.
  - destruct (String.eqb_spec winner "player"); [left|right]; auto.
  - intros other Hne. now rewrite lookup_alter_ne.
Qed.

End Routes.

(** * The dealer's turn *)

Section DealerTurn.

Import Client.

Implicit Types (b : Browser) (w : Server.World).

Lemma draw_returns w (id : DeckId) (hand : string) (cards : list Card) w' :
  Server.draw id hand w = (Some cards, w') ->
  exists c rest ps,
    Server.decks w !! id = Some (Server.mkDeck (c :: rest) ps)
    /\ cards = default [] (ps !! hand) ++ [c]
    /\ Server.decks w' !! id = Some (Server.mkDeck rest (<[hand := cards]> ps)).
Proof.
  unfold Server.draw, Server.drawCardToHand, Server.drawOne, Server.addToPile,
    Server.getPileData, mbind, M_bind.
  destruct (Server.decks w !! id) as [[[|c rest] ps]|] eqn:Hd; try discriminate.
  cbn [Server.decks Server.set_decks Server.sent]. rewrite lookup_insert_eq.
  cbn [Server.decks Server.set_decks Server.sent]. rewrite lookup_insert_eq.
  cbn [Server.piles]. rewrite lookup_insert_eq.
  intros [= <- <-]. exists c, rest, ps.
  cbn [Server.decks Server.set_decks Server.sent]. rewrite lookup_insert_eq. auto.
Qed.

Lemma dealerDraw_returns b b' :
  dealerDraw b = (Some tt, b') ->
  exists c rest ps,
    let pile := default [] (ps !! "dealer") ++ [c] in
    Server.decks (server b) !! deckId (game b) = Some (Server.mkDeck (c :: rest) ps)
    /\ Server.decks (server b') !! deckId (game b)
       = Some (Server.mkDeck rest (<["dealer" := pile]> ps))
    /\ game b' = set_score DEALER (Score.score pile) (set_dealerPile pile (game b)).
Proof.
  unfold dealerDraw. intros H.
  apply bind_returns in H as (b0 & s0 & [= <- <-] & H).
  apply bind_returns in H as (pile & s1 & Hfetch & H).
  unfold fetch in Hfetch.
  destruct (Server.draw (deckId (game b)) "dealer" (server b)) as [r w'] eqn:Hdraw.
  injection Hfetch as -> <-.
  apply draw_returns in Hdraw as (c & rest & ps & Hd & -> & Hd').
  exists c, rest, ps. cbn zeta. split; [exact Hd|].
  unfold mbind, M_bind, modify, set_game in H. cbn in H.
  injection H as <-. cbn [server game]. split; [exact Hd'|reflexivity].
Qed.

Lemma score_of_set_score (k : string) (n : JsNumber) (g : Game) :
  score_of (set_score k n g) k = n.
Proof. unfold score_of, set_score. cbn [scores]. now rewrite lookup_insert_eq. Qed.

Lemma wellFormed_app_l (l1 l2 : list Card) : wellFormed (l1 ++ l2) -> wellFormed l1.
Proof.
  unfold wellFormed, ranks_of. rewrite !mapM_is_Some, Forall_app. tauto.
Qed.

Lemma wellFormed_score (pile : list Card) :
  wellFormed pile -> exists z, Score.score pile = Num z.
Proof. intros [ranks H]. exists (Spec.score ranks). now apply score_ranks. Qed.

(** What one more card does to the dealer's side of the tab. *)
Lemma dealerDraw_step b b' :
  dealerDraw b = (Some tt, b') ->
  S (cardsLeft b') = cardsLeft b
  /\ dealerCards b' = dealerCards b
  /\ exists pile rest,
       dealerCards b = pile ++ rest
       /\ score_of (game b') DEALER = Score.score pile.
Proof.
  intros H. apply dealerDraw_returns in H as (c & rest & ps & Hd & Hd' & Hg).
  cbn zeta in *. unfold cardsLeft, dealerCards. rewrite Hg.
  cbn [deckId set_score set_dealerPile]. rewrite Hd, Hd'.
  cbn [Server.remaining Server.piles length]. rewrite lookup_insert_eq. cbn [default].
  unfold id. split; [reflexivity|].
  split; [now rewrite <- app_assoc|].
  exists (default [] (ps !! "dealer") ++ [c]), rest.
  split; [now rewrite <- app_assoc|].
  apply score_of_set_score.
Qed.

(** The loop of [stand] ends because its condition fails or because a
    draw throws: with one iteration more than there are cards left the
    iterations do not run out. *)
Lemma dealerLoop_exits (fuel : nat) b (r : option unit) b' :
  (cardsLeft b < fuel)%nat ->
  dealerLoop fuel b = (r, b') ->
  r = None \/ lt (score_of (game b') DEALER) (Num 17) = false.
Proof.
  revert b. induction fuel as [|fuel IH]; intros b Hfuel; [lia|].
  cbn [dealerLoop].
  destruct (lt (score_of (game b) DEALER) (Num 17)) eqn:Hlt.
  - unfold mbind, M_bind.
    destruct (dealerDraw b) as [[[]|] b1] eqn:Hdraw.
    + apply dealerDraw_step in Hdraw as (Hleft & _). apply IH. lia.
    + intros [= <- _]. now left.
  - intros [= _ <-]. now right.
Qed.

(** C5.  When the loop of the dealer's turn ends without a failed draw,
    the dealer's score is at least 17 (the cards being cards of the data
    model and the score on entry a number, as [initGame] leaves it). *)
Theorem dealer_stands_at_17 (fuel : nat) b b' :
  (cardsLeft b < fuel)%nat ->
  wellFormed (dealerCards b) ->
  (exists z, score_of (game b) DEALER = Num z) ->
  dealerLoop fuel b = (Some tt, b') ->
  exists z, score_of (game b') DEALER = Num z /\ 17 <= z.
Proof.
  revert b. induction fuel as [|fuel IH]; intros b Hfuel Hwf Hnum; [lia|].
  cbn [dealerLoop].
  destruct (lt (score_of (game b) DEALER) (Num 17)) eqn:Hlt.
  - intros H. apply bind_returns in H as ([] & b1 & Hdraw & Hloop).
    apply dealerDraw_step in Hdraw as (Hleft & Hcards & pile & rest & Hsplit & Hscore).
    apply (IH b1); [lia|now rewrite Hcards| |exact Hloop].
    rewrite Hscore. apply wellFormed_score.
    apply (wellFormed_app_l pile rest). now rewrite <- Hsplit.
  - intros [= <-]. destruct Hnum as [z Hz]. exists z. split; [exact Hz|].
    rewrite Hz in Hlt. cbn [lt] in Hlt. apply Z.ltb_ge in Hlt. exact Hlt.
Qed.

(** ** Naming the winner *)

Lemma endGame_alerts (winner : string) b :
  alerts (snd (endGame winner b)) = alerts b.
Proof.
  unfold endGame, get, fetch, initGame, modify, set_game, mbind, M_bind.
  destruct (Server.endGame (gameName (game b)) winner (server b)) as [[g|] w];
    reflexivity.
Qed.

Lemma playerWins_alerts (p d : JsNumber) b :
  alerts (snd (playerWins p d b)) = alerts b ++ [YouWin p d].
Proof.
  unfold playerWins. erewrite bind_run by reflexivity. now rewrite endGame_alerts.
Qed.

Lemma dealerWins_alerts (p d : JsNumber) b :
  alerts (snd (dealerWins p d b)) = alerts b ++ [YouLose p d].
Proof.
  unfold dealerWins. erewrite bind_run by reflexivity. now rewrite endGame_alerts.
Qed.

Lemma playerWins_not_dealerWins (p d : JsNumber) b :
  playerWins p d b <> dealerWins p d b.
Proof.
  intros H. apply (f_equal (fun r => alerts (snd r))) in H.
  rewrite playerWins_alerts, dealerWins_alerts in H.
  apply app_inv_head in H. discriminate.
Qed.

Lemma determineWinner_run b :
  determineWinner b
  = if gt (score_of (game b) DEALER) (Num 21)
       || lt (score_of (game b) DEALER) (score_of (game b) PLAYER)
    then playerWins (score_of (game b) PLAYER) (score_of (game b) DEALER) b
    else dealerWins (score_of (game b) PLAYER) (score_of (game b) DEALER) b.
Proof.
  unfold determineWinner. erewrite bind_run by reflexivity.
  destruct (gt _ _ || lt _ _); reflexivity.
Qed.

(** C4.  Once the loop of the dealer's turn is over, [stand] names the
    player the winner exactly when the dealer's score exceeds 21 or is
    strictly less than the player's score, and the dealer otherwise; two
    equal scores that do not exceed 21 are a win for the dealer. *)
Theorem stand_names_the_winner b b' (p d : JsNumber) :
  dealerLoop (S (cardsLeft b)) b = (Some tt, b') ->
  score_of (game b') PLAYER = p ->
  score_of (game b') DEALER = d ->
  (stand b = playerWins p d b' <-> gt d (Num 21) = true \/ lt d p = true)
  /\ (stand b = dealerWins p d b' <-> ~ (gt d (Num 21) = true \/ lt d p = true))
  /\ (forall z, p = Num z -> d = Num z -> z <= 21 -> stand b = dealerWins p d b').
Proof.
  intros Hloop <- <-.
  assert (Hstand : stand b = determineWinner b')
    by (unfold stand; now erewrite bind_run by exact Hloop).
  rewrite Hstand, determineWinner_run.
  set (p := score_of (game b') PLAYER). set (d := score_of (game b') DEALER).
  pose proof (playerWins_not_dealerWins p d b') as Hne.
  destruct (gt d (Num 21)) eqn:Hgt; [|destruct (lt d p) eqn:Hlt]; cbn [orb].
  - split; [|split].
    + split; auto.
    + split; [intros H; destruct (Hne H)|intros H; exfalso; auto].
    + intros z Hp Hd Hz. rewrite Hd in Hgt. cbn [gt] in Hgt.
      apply Z.gtb_lt in Hgt. lia.
  - split; [|split].
    + split; auto.
    + split; [intros H; destruct (Hne H)|intros H; exfalso; auto].
    + intros z Hp Hd Hz. rewrite Hp, Hd in Hlt. cbn [lt] in Hlt.
      apply Z.ltb_lt in Hlt. lia.
  - split; [|split].
    + split; [intros H; symmetry in H; destruct (Hne H)|intros [H|H]; discriminate].
    + split; [intros _ [H|H]; discriminate|reflexivity].
    + reflexivity.
Qed.

End DealerTurn.

(** * Sample runs *)

Section Samples.

Import Sample Client.

Example score_empty : Score.score [] = Num 0.
Proof. reflexivity. Qed.

Example score_king_ace : Score.score [king; ace] = Num 21.
Proof. vm_compute. reflexivity. Qed.

Example score_king_queen_ace : Score.score [king; queen; ace] = Num 21.
Proof. vm_compute. reflexivity. Qed.

Example score_ace_ace_nine : Score.score [ace; ace'; nine] = Num 21.
Proof. vm_compute. reflexivity. Qed.

Example StringToNumber_samples :
  map StringToNumber
      ["7"; "10"; "0"; ""; " 0.0e5 "; "ACE"; "KING"; "0x"; "0x1f"; "-0";
       "1e-400"; ".5"; "."; "Infinity"; "1e"]%string
  = [ClsNonZero; ClsNonZero; ClsZero; ClsZero; ClsZero; ClsNaN; ClsNaN; ClsNaN;
     ClsNonZero; ClsZero; ClsZero; ClsNonZero; ClsNaN; ClsNonZero; ClsNaN].
Proof. vm_compute. reflexivity. Qed.

Example parseInt_samples :
  map parseInt_string ["7"; "10"; " 12px"; "0x1f"; "-3.9"; "ACE"; ".5"; ""]%string
  = [Num 7; Num 10; Num 12; Num 31; Num (-3); NaN; NaN; NaN].
Proof. vm_compute. reflexivity. Qed.

Lemma scorePlayer_follows_rule_witness :
  ranks_of [king; queen; ace] = Some [King; Queen; Ace]
  /\ Score.score [king; queen; ace] = Num (Spec.score [King; Queen; Ace]).
Proof.
  assert (H : ranks_of [king; queen; ace] = Some [King; Queen; Ace]) by reflexivity.
  split; [exact H|].
  apply (scorePlayer_follows_rule [king; queen; ace] [King; Queen; Ace] H).
Defined.

Lemma score_is_best_total_witness :
  ranks_of [ace; ace'; nine] = Some [Ace; Ace; Number 9]
  /\ exists s : Z,
       Score.score [ace; ace'; nine] = Num s
       /\ In s (totals [Ace; Ace; Number 9]).
Proof.
  assert (H : ranks_of [ace; ace'; nine] = Some [Ace; Ace; Number 9]) by reflexivity.
  split; [exact H|].
  destruct (score_is_best_total [ace; ace'; nine] [Ace; Ace; Number 9] H)
    as (s & Hs & Hin & _).
  exists s. split; [exact Hs|exact Hin].
Defined.

Lemma score_permutation_witness :
  wellFormed [king; ace; nine]
  /\ Permutation [king; ace; nine] [ace; king; nine]
  /\ Score.score [ace; king; nine] = Score.score [king; ace; nine].
Proof.
  assert (Hwf : wellFormed [king; ace; nine])
    by (exists [King; Ace; Number 9]; reflexivity).
  assert (H : Permutation [king; ace; nine] [ace; king; nine]) by apply perm_swap.
  split; [exact Hwf|]. split; [exact H|].
  destruct (score_permutation _ _ Hwf H) as [_ Hs]. exact Hs.
Defined.

(** C6, as the specification states it, fails: a two drawn on an ace and
    a nine takes the score from 20 down to 12. *)
Lemma draw_can_lower_the_score :
  ~ (forall (pile : list Card) (card : Card),
       wellFormed (pile ++ [card]) ->
       exists a b : Z,
         Score.score pile = Num a /\ Score.score (pile ++ [card]) = Num b /\ a <= b).
Proof.
  intros H.
  destruct (H [ace; nine] two) as (a & b & Ha & Hb & Hle).
  - exists [Ace; Number 9; Number 2]. reflexivity.
  - vm_compute in Ha, Hb. injection Ha as <-. injection Hb as <-. lia.
Qed.




Lemma fresh_round_deals_alternately_witness :
  Server.shuffle world (Server.minted world) = king :: two :: nine :: six :: [five; queen; ace]
  /\ Server.games world !! "lounge" = None
  /\ exists g w',
       Server.getOrCreate "lounge" world = (Some g, w')
       /\ playerPile g = [king; nine] /\ dealerPile g = [two; six].
Proof.
  assert (Hsh : Server.shuffle world (Server.minted world)
                = king :: two :: nine :: six :: [five; queen; ace]) by reflexivity.
  assert (Hnone : Server.games world !! "lounge" = None) by reflexivity.
  split; [exact Hsh|]. split; [exact Hnone|].
  destruct (fresh_round_deals_alternately world "lounge" "player" _ _ _ _ _ Hsh)
    as [Hcreate _].
  destruct (Hcreate Hnone) as (g & w' & Hrun & Hp & Hd & _).
  exists g, w'. auto.
Defined.

Lemma round_end_counts_once_witness :
  Server.games world !! "table" = Some (Server.mkRow 0%N 3 4)
  /\ exists row',
       Server.games (snd (Server.endGame "table" "player" world)) !! "table" = Some row'
       /\ Server.row_deckId row' = 1%N.
Proof.
  assert (Hrow : Server.games world !! "table" = Some (Server.mkRow 0%N 3 4))
    by reflexivity.
  split; [exact Hrow|].
  destruct (round_end_counts_once world "table" "player" _ Hrow)
    as (id & w1 & row' & Hmint & Hlook & Hid & _).
  exists row'. split; [exact Hlook|].
  rewrite Hid. injection Hmint as <- _. reflexivity.
Defined.

Lemma dealer_stands_at_17_witness :
  (cardsLeft browser < 4)%nat
  /\ wellFormed (dealerCards browser)
  /\ (exists z, score_of (game browser) DEALER = Num z)
  /\ dealerLoop 4 browser = (Some tt, snd (dealerLoop 4 browser))
  /\ exists z, score_of (game (snd (dealerLoop 4 browser))) DEALER = Num z /\ 17 <= z.
Proof.
  assert (H1 : (cardsLeft browser < 4)%nat) by (vm_compute; lia).
  assert (H2 : wellFormed (dealerCards browser))
    by (exists [Number 2; Number 6; Number 5; Queen; Ace]; vm_compute; reflexivity).
  assert (H3 : exists z, score_of (game browser) DEALER = Num z)
    by (exists 8; reflexivity).
  assert (H4 : dealerLoop 4 browser = (Some tt, snd (dealerLoop 4 browser)))
    by (vm_compute; reflexivity).
  split; [exact H1|]. split; [exact H2|]. split; [exact H3|]. split; [exact H4|].
  apply (dealer_stands_at_17 4 browser _ H1 H2 H3 H4).
Defined.

Lemma stand_names_the_winner_witness :
  dealerLoop (S (cardsLeft browser)) browser
  = (Some tt, snd (dealerLoop (S (cardsLeft browser)) browser))
  /\ stand browser
     = playerWins (Num 19) (Num 23) (snd (dealerLoop (S (cardsLeft browser)) browser)).
Proof.
  assert (H : dealerLoop (S (cardsLeft browser)) browser
              = (Some tt, snd (dealerLoop (S (cardsLeft browser)) browser)))
    by (vm_compute; reflexivity).
  split; [exact H|].
  apply (stand_names_the_winner browser _ (Num 19) (Num 23) H);
    [vm_compute; reflexivity|vm_compute; reflexivity|].
  left. reflexivity.
Defined.

End Samples.

(** * More on the score engine *)

Section Hands.

Import Session.

Implicit Types (pile : list Card) (card : Card) (ranks : list Rank) (r : Rank).

Lemma ranks_of_low pile ranks : ranks_of pile = Some ranks -> lowRanks ranks.
Proof.
  unfold ranks_of, lowRanks. rewrite mapM_Some. intros H.
  induction H as [|c r pile ranks Hr _ IH]; constructor; [|exact IH].
  exact (rank_of_low _ _ Hr).
Qed.

Lemma ranks_of_length pile ranks :
  ranks_of pile = Some ranks -> length ranks = length pile.
Proof.
  unfold ranks_of. rewrite mapM_Some. intros H. symmetry.
  induction H; simpl; congruence.
Qed.

Lemma hardTotal_bounds ranks :
  lowRanks ranks ->
  Z.of_nat (aces ranks) <= hardTotal ranks <= 10 * Z.of_nat (length ranks).
Proof.
  intros H. induction H as [|r ranks Hr _ IH].
  - unfold aces. simpl. lia.
  - rewrite aces_cons, hardTotal_cons. cbn [length].
    destruct (isAce r); lia.
Qed.

Lemma aces_app ranks r :
  aces (ranks ++ [r]) = (aces ranks + (if isAce r then 1 else 0))%nat.
Proof.
  induction ranks as [|r0 ranks IH].
  - cbn [app]. rewrite aces_cons. unfold aces. simpl. lia.
  - cbn [app]. rewrite !aces_cons, IH. lia.
Qed.

(** The loop of the score rule ends on the closed form. *)
Lemma score_handValue ranks : lowRanks ranks -> Spec.score ranks = handValue ranks.
Proof.
  intros Hlow. pose proof (hardTotal_bounds ranks Hlow) as [Hge _].
  rewrite score_reconcile. unfold handValue.
  destruct (reconcile_downgrades (hardTotal ranks) (aces ranks))
    as (k & Hk & -> & Habove & Hbust).
  destruct (0 <? aces ranks)%nat eqn:Ha; cbn [andb].
  - apply Nat.ltb_lt in Ha.
    destruct (hardTotal ranks <=? 11) eqn:Hh.
    + apply Z.leb_le in Hh.
      destruct (decide (k = 0%nat)) as [->|Hk0].
      * specialize (Habove 1%nat). lia.
      * destruct (decide (k = 1%nat)) as [->|Hk1]; [lia|].
        assert (21 < hardTotal ranks + 10 * Z.of_nat k) by lia.
        specialize (Hbust H). lia.
    + apply Z.leb_gt in Hh.
      destruct (decide (k = 0%nat)) as [->|Hk0]; [lia|].
      assert (21 < hardTotal ranks + 10 * Z.of_nat k) by lia.
      specialize (Hbust H). lia.
  - apply Nat.ltb_ge in Ha. assert (k = 0%nat) as -> by lia. lia.
Qed.

(** X1.  On a pile of cards of the data model the score is the total
    with every ace counted as 1, plus 10 when the pile holds an ace and
    that total is at most 11: at most one ace ever counts as 11. *)
Theorem score_closed_form pile ranks :
  ranks_of pile = Some ranks -> Score.score pile = Num (handValue ranks).
Proof.
  intros H. rewrite (score_ranks pile ranks H). f_equal.
  apply score_handValue. exact (ranks_of_low pile ranks H).
Qed.

(** X2.  A pile of cards of the data model scores above 21 exactly when
    its total with every ace counted as 1 is above 21, and then the score
    is that total. *)
Theorem bust_iff_hard_total pile ranks :
  ranks_of pile = Some ranks ->
  exists s : Z,
    Score.score pile = Num s
    /\ (21 < s <-> 21 < hardTotal ranks)
    /\ (21 < s -> s = hardTotal ranks).
Proof.
  intros H. exists (handValue ranks). split.
  - rewrite (score_ranks pile ranks H). f_equal.
    apply score_handValue. exact (ranks_of_low pile ranks H).
  - unfold handValue.
    destruct ((0 <? aces ranks)%nat && (hardTotal ranks <=? 11)) eqn:Hs.
    + apply andb_true_iff in Hs as [_ Hh]. apply Z.leb_le in Hh. lia.
    + lia.
Qed.

(** X3.  A pile of at most two cards of the data model, such as the
    opening deal leaves, never scores above 21. *)
Theorem two_cards_never_bust pile ranks :
  ranks_of pile = Some ranks ->
  (length pile <= 2)%nat ->
  exists s : Z, Score.score pile = Num s /\ s <= 21.
Proof.
  intros H Hlen. exists (handValue ranks). split.
  - rewrite (score_ranks pile ranks H). f_equal.
    apply score_handValue. exact (ranks_of_low pile ranks H).
  - pose proof (hardTotal_bounds ranks (ranks_of_low pile ranks H)) as [_ Hle].
    rewrite (ranks_of_length pile ranks H) in Hle. unfold handValue.
    destruct ((0 <? aces ranks)%nat && (hardTotal ranks <=? 11)) eqn:Hs.
    + apply andb_true_iff in Hs as [_ Hh]. apply Z.leb_le in Hh. lia.
    + lia.
Qed.

(** X4.  One more card of the data model moves the score of a pile by at
    least -9 and at most 11. *)
Theorem draw_moves_score_within_bounds pile card ranks r :
  ranks_of pile = Some ranks ->
  rank_of (value card) = Some r ->
  exists a b : Z,
    Score.score pile = Num a
    /\ Score.score (pile ++ [card]) = Num b
    /\ a - 9 <= b <= a + 11.
Proof.
  intros Hp Hc.
  pose proof (ranks_of_app pile ranks card r Hp Hc) as Hp'.
  exists (handValue ranks), (handValue (ranks ++ [r])).
  split; [|split].
  - rewrite (score_ranks pile ranks Hp). f_equal.
    apply score_handValue. exact (ranks_of_low pile ranks Hp).
  - rewrite (score_ranks _ _ Hp'). f_equal.
    apply score_handValue. exact (ranks_of_low _ _ Hp').
  - pose proof (rank_of_low _ _ Hc) as Hr.
    pose proof (hardTotal_bounds ranks (ranks_of_low pile ranks Hp)) as [Hge _].
    unfold handValue. rewrite hardTotal_app, aces_app.
    destruct (isAce r);
      repeat match goal with
             | |- context [(?x <? ?y)%nat] => destruct (Nat.ltb_spec x y)
             | |- context [?x <=? ?y] => destruct (Z.leb_spec x y)
             end;
      cbn [andb]; lia.
Qed.

(** C6, as amended.  Appending a card of the data model to a pile of
    such cards lowers the score exactly when an ace of the pile counts as
    11 (the pile holds an ace and its total with every ace low is at most
    11), that total and the card (an ace being worth 1) exceed 11
    together, and the card is worth less than 10; the score then goes
    down by 10 less what the card is worth.  In every other case the
    score does not decrease. *)
Theorem draw_lowers_score_exactly_when pile card ranks r :
  ranks_of pile = Some ranks ->
  rank_of (value card) = Some r ->
  exists a b : Z,
    Score.score pile = Num a
    /\ Score.score (pile ++ [card]) = Num b
    /\ (soft ranks <-> a = hardTotal ranks + 10)
    /\ (b < a <-> soft ranks /\ 11 < hardTotal ranks + lowValue r /\ lowValue r < 10)
    /\ (b < a -> b = a - (10 - lowValue r))
    /\ (~ (soft ranks /\ 11 < hardTotal ranks + lowValue r /\ lowValue r < 10) -> a <= b).
Proof.
  intros Hp Hc.
  pose proof (ranks_of_app pile ranks card r Hp Hc) as Hp'.
  exists (handValue ranks), (handValue (ranks ++ [r])).
  split; [|split].
  - rewrite (score_ranks pile ranks Hp). f_equal.
    apply score_handValue. exact (ranks_of_low pile ranks Hp).
  - rewrite (score_ranks _ _ Hp'). f_equal.
    apply score_handValue. exact (ranks_of_low _ _ Hp').
  - pose proof (rank_of_low _ _ Hc) as Hr.
    pose proof (hardTotal_bounds ranks (ranks_of_low pile ranks Hp)) as [Hge _].
    unfold handValue, soft, lowValue. rewrite hardTotal_app, aces_app.
    destruct (isAce r);
      repeat match goal with
             | |- context [(?x <? ?y)%nat] => destruct (Nat.ltb_spec x y)
             | |- context [?x <=? ?y] => destruct (Z.leb_spec x y)
             end;
      cbn [andb]; repeat split; intros; lia.
Qed.

(** One unreadable value is enough for a score of [NaN]. *)
Lemma score_unreadable pile card :
  In card pile -> unreadable (value card) -> Score.score pile = NaN.
Proof.
  intros Hin (Hn & Hz & Hp).
  assert (Hc : fst (contribution card) = NaN).
  { unfold contribution, forEach_body. rewrite Hn, Hz, Hp. reflexivity. }
  assert (Hfold : forall l st, fst st = NaN -> fst (fold_left forEach_body l st) = NaN).
  { induction l as [|c l IH]; intros st Hst; [exact Hst|].
    cbn [fold_left]. apply IH. rewrite forEach_body_contribution. cbn [fst].
    now rewrite Hst. }
  assert (Hscan : fst (fold_left forEach_body pile (Num 0, 0)) = NaN).
  { generalize (Num 0, 0). induction pile as [|c l IH]; intros st; [destruct Hin|].
    cbn [fold_left]. destruct Hin as [->|Hin].
    - apply Hfold. rewrite forEach_body_contribution. cbn [fst]. rewrite Hc.
      destruct (fst st); reflexivity.
    - now apply IH. }
  unfold Score.score.
  destruct (fold_left forEach_body pile (Num 0, 0)) as [s a]. cbn [fst snd] in *.
  subst s. destruct (Z.to_nat a); reflexivity.
Qed.

(** X5.  A card whose value is numeric and not zero but cannot be read by
    [parseInt] (such as 'Infinity' or '.5') makes the score of any pile
    that holds it [NaN], whatever the other cards are. *)
Theorem unreadable_value_poisons_score pile card :
  In card pile -> unreadable (value card) -> Score.score pile = NaN.
Proof. apply score_unreadable. Qed.

End Hands.

(** * More on the routes *)

Section RoutesMore.

Import Server Session.

Implicit Types (w : World) (id : DeckId) (hand name winner : string).

(** ** What the card requests leave alone *)

Lemma keeps_bind {A B C} (proj : World -> C) (m : M World A) (f : A -> M World B) :
  keeps proj m -> (forall a, keeps proj (f a)) -> keeps proj (m ≫= f).
Proof.
  intros Hm Hf w. unfold mbind, M_bind.
  specialize (Hm w). destruct (m w) as [[a|] w1]; cbn [snd] in *.
  - now rewrite Hf.
  - exact Hm.
Qed.

Lemma keeps_drawCardToHand {C} (proj : World -> C) id hand :
  (forall w f r, proj (sent r (set_decks f w)) = proj w) ->
  keeps proj (drawCardToHand id hand).
Proof.
  intros Hproj. apply keeps_bind.
  - intros w. unfold drawOne.
    destruct (decks w !! id) as [[[|c rest] ps]|]; cbn [snd]; auto.
  - intros c w. unfold addToPile.
    destruct (decks w !! id) as [[rest ps]|]; cbn [snd]; auto.
Qed.

Lemma keeps_getPileData {C} (proj : World -> C) id hand :
  (forall w r, proj (sent r w) = proj w) ->
  keeps proj (getPileData id hand).
Proof.
  intros Hproj w. unfold getPileData.
  destruct (decks w !! id) as [d|]; [|reflexivity].
  destruct (piles d !! hand); cbn [snd]; auto.
Qed.

Lemma keeps_draw {C} (proj : World -> C) id hand :
  (forall w f r, proj (sent r (set_decks f w)) = proj w) ->
  (forall w r, proj (sent r w) = proj w) ->
  keeps proj (Server.draw id hand).
Proof.
  intros H1 H2. apply keeps_bind; [now apply keeps_drawCardToHand|].
  intros _. now apply keeps_getPileData.
Qed.

(** ** The [draw] route *)

Lemma drawCardToHand_returns id hand w w' :
  drawCardToHand id hand w = (Some tt, w') ->
  exists c rest ps,
    decks w !! id = Some (mkDeck (c :: rest) ps)
    /\ w' = mkWorld (games w)
                    (<[id := mkDeck rest (<[hand := default [] (ps !! hand) ++ [c]]> ps)]>
                       (decks w))
                    (minted w) (shuffle w)
                    (requests w ++ [DrawOne id c; PileAdd id hand c]).
Proof.
  unfold drawCardToHand, drawOne, addToPile, mbind, M_bind.
  destruct (decks w !! id) as [[[|c rest] ps]|] eqn:Hd; try discriminate.
  cbn [decks set_decks sent]. rewrite lookup_insert_eq.
  intros [= <-]. exists c, rest, ps. split; [reflexivity|].
  unfold sent, set_decks. cbn [games decks minted shuffle requests].
  now rewrite insert_insert_eq, <- app_assoc.
Qed.

Lemma drawCardToHand_throws id hand w w' :
  drawCardToHand id hand w = (None, w') ->
  w' = w /\ (serverDeck w id = None \/ serverDeck w id = Some []).
Proof.
  unfold drawCardToHand, drawOne, addToPile, serverDeck, mbind, M_bind.
  destruct (decks w !! id) as [[[|c rest] ps]|] eqn:Hd; cbn [fmap option_fmap option_map remaining].
  - intros [= <-]. auto.
  - cbn [decks set_decks sent]. rewrite lookup_insert_eq. discriminate.
  - intros [= <-]. auto.
Qed.

Lemma getPileData_returns id hand w (cards : list Card) w' :
  getPileData id hand w = (Some cards, w') ->
  serverPile w id hand = Some cards /\ w' = sent (PileList id hand) w.
Proof.
  unfold getPileData, serverPile.
  destruct (decks w !! id) as [d|]; [|discriminate]. cbn.
  destruct (piles d !! hand); [|discriminate].
  intros [= <- <-]. auto.
Qed.

Lemma getPileData_run' id hand w (cards : list Card) :
  serverPile w id hand = Some cards ->
  getPileData id hand w = (Some cards, sent (PileList id hand) w).
Proof.
  unfold getPileData, serverPile.
  destruct (decks w !! id) as [d|]; [|discriminate]. cbn.
  now intros ->.
Qed.

Lemma serverPile_sent w (r : Request) id hand :
  serverPile (sent r w) id hand = serverPile w id hand.
Proof. reflexivity. Qed.

(** The [draw] route on a deck that has a card left. *)
Lemma draw_run id hand w (c : Card) rest ps :
  decks w !! id = Some (mkDeck (c :: rest) ps) ->
  exists w',
    Server.draw id hand w = (Some (default [] (ps !! hand) ++ [c]), w')
    /\ serverDeck w' id = Some rest
    /\ serverPile w' id hand = Some (default [] (ps !! hand) ++ [c])
    /\ (forall other, other <> hand -> serverPile w' id other = serverPile w id other)
    /\ (forall id', id' <> id -> decks w' !! id' = decks w !! id')
    /\ games w' = games w
    /\ requests w'
       = requests w ++ [DrawOne id c; PileAdd id hand c; PileList id hand].
Proof.
  intros Hd. destruct w as [G DS n sh R]. cbn [decks games requests] in *.
  set (pile := default [] (ps !! hand) ++ [c]).
  exists (mkWorld G (<[id := mkDeck rest (<[hand := pile]> ps)]> DS) n sh
                  (R ++ [DrawOne id c; PileAdd id hand c; PileList id hand])).
  split; [|split; [|split; [|split; [|split; [|split]]]]].
  - unfold Server.draw.
    rewrite <- (insert_id DS id _ Hd) at 1.
    erewrite bind_run by (apply drawCardToHand_run; reflexivity).
    erewrite getPileData_run by apply lookup_insert_eq.
    rewrite <- app_assoc. reflexivity.
  - unfold serverDeck. cbn [decks]. now rewrite lookup_insert_eq.
  - unfold serverPile. cbn [decks]. rewrite lookup_insert_eq. cbn.
    apply lookup_insert_eq.
  - intros other Hne. unfold serverPile. cbn [decks].
    rewrite lookup_insert_eq, Hd. cbn. now apply lookup_insert_ne.
  - intros id' Hne. cbn [decks]. now apply lookup_insert_ne.
  - reflexivity.
  - reflexivity.
Qed.


(** The [draw] route on a deck without a card. *)
Lemma draw_empty_run id hand w :
  serverDeck w id = None \/ serverDeck w id = Some [] ->
  Server.draw id hand w = (None, w).
Proof.
  intros H. unfold Server.draw, drawCardToHand, drawOne, mbind, M_bind.
  unfold serverDeck in H.
  destruct (decks w !! id) as [[[|c rest] ps]|]; cbn in H.
  - reflexivity.
  - destruct H; discriminate.
  - reflexivity.
Qed.

(** X7.  On a deck that is unknown or has no card left, [draw] throws
    and leaves the state of the server as it was. *)
Theorem draw_needs_a_card id hand w :
  serverDeck w id = None \/ serverDeck w id = Some [] ->
  Server.draw id hand w = (None, w).
Proof. apply draw_empty_run. Qed.

(** ** [getOrCreate] *)

Lemma returns_keeps {A C} (proj : World -> C) (m : M World A) w (r : option A) w' :
  keeps proj m -> m w = (r, w') -> proj w' = proj w.
Proof. intros Hk Hm. specialize (Hk w). now rewrite Hm in Hk. Qed.

(** The four draws and two listings of a deal, when they return. *)
Lemma deal_returns {A} id w (k : list Card -> list Card -> M World A) (a : A) w' :
  (drawCardToHand id "player";;
   drawCardToHand id "dealer";;
   drawCardToHand id "player";;
   drawCardToHand id "dealer";;
   playerPileData ← getPileData id "player";
   dealerPileData ← getPileData id "dealer";
   k playerPileData dealerPileData) w = (Some a, w') ->
  exists p d w2,
    k p d w2 = (Some a, w')
    /\ serverPile w2 id "player" = Some p
    /\ serverPile w2 id "dealer" = Some d
    /\ games w2 = games w
    /\ minted w2 = minted w.
Proof.
  intros H.
  apply bind_returns in H as ([] & w1 & H1 & H).
  apply bind_returns in H as ([] & w2 & H2 & H).
  apply bind_returns in H as ([] & w3 & H3 & H).
  apply bind_returns in H as ([] & w4 & H4 & H).
  apply bind_returns in H as (p & w5 & H5 & H).
  apply bind_returns in H as (d & w6 & H6 & H).
  apply getPileData_returns in H5 as [Hp ->].
  apply getPileData_returns in H6 as [Hd ->].
  exists p, d, (sent (PileList id "dealer") (sent (PileList id "player") w4)).
  split; [exact H|]. rewrite !serverPile_sent.
  split; [exact Hp|]. split; [exact Hd|].
  split.
  - transitivity (games w4); [reflexivity|].
    rewrite (returns_keeps games _ _ _ _ (keeps_drawCardToHand games id "dealer" ltac:(reflexivity)) H4).
    rewrite (returns_keeps games _ _ _ _ (keeps_drawCardToHand games id "player" ltac:(reflexivity)) H3).
    rewrite (returns_keeps games _ _ _ _ (keeps_drawCardToHand games id "dealer" ltac:(reflexivity)) H2).
    exact (returns_keeps games _ _ _ _ (keeps_drawCardToHand games id "player" ltac:(reflexivity)) H1).
  - transitivity (minted w4); [reflexivity|].
    rewrite (returns_keeps minted _ _ _ _ (keeps_drawCardToHand minted id "dealer" ltac:(reflexivity)) H4).
    rewrite (returns_keeps minted _ _ _ _ (keeps_drawCardToHand minted id "player" ltac:(reflexivity)) H3).
    rewrite (returns_keeps minted _ _ _ _ (keeps_drawCardToHand minted id "dealer" ltac:(reflexivity)) H2).
    exact (returns_keeps minted _ _ _ _ (keeps_drawCardToHand minted id "player" ltac:(reflexivity)) H1).
Qed.

(** [getOrCreate] on a stored game whose piles can be listed. *)
Lemma getOrCreate_existing_run w name (row : Row) (p d : list Card) :
  games w !! name = Some row ->
  serverPile w (row_deckId row) "player" = Some p ->
  serverPile w (row_deckId row) "dealer" = Some d ->
  getOrCreate name w
  = (Some (mkGame name (row_deckId row) (row_gamesWon row) (row_gamesLost row) d p ∅),
     mkWorld (games w) (decks w) (minted w) (shuffle w)
             (requests w ++ [PileList (row_deckId row) "player";
                             PileList (row_deckId row) "dealer"])).
Proof.
  intros Hrow Hp Hd. unfold getOrCreate.
  erewrite bind_run by reflexivity. rewrite Hrow.
  erewrite bind_run by (apply getPileData_run'; exact Hp).
  erewrite bind_run by (apply getPileData_run'; rewrite serverPile_sent; exact Hd).
  unfold mret, M_ret, sent. cbn [games decks minted shuffle requests].
  now rewrite <- app_assoc.
Qed.

(** X8.  For a game that is stored, [getOrCreate] answers with the row
    and the two piles of its deck as they are: it mints no deck, draws no
    card and writes nothing; it sends the two listings only. *)
Theorem getOrCreate_resumes w name (row : Row) (p d : list Card) :
  games w !! name = Some row ->
  serverPile w (row_deckId row) "player" = Some p ->
  serverPile w (row_deckId row) "dealer" = Some d ->
  getOrCreate name w
  = (Some (mkGame name (row_deckId row) (row_gamesWon row) (row_gamesLost row) d p ∅),
     mkWorld (games w) (decks w) (minted w) (shuffle w)
             (requests w ++ [PileList (row_deckId row) "player";
                             PileList (row_deckId row) "dealer"])).
Proof. apply getOrCreate_existing_run. Qed.

(** What [getOrCreate] has done when it answers. *)
Lemma getOrCreate_returns w name (g : Game) w' :
  getOrCreate name w = (Some g, w') ->
  gameName g = name /\ scores g = ∅ /\ snapshotOf w' g.
Proof.
  unfold getOrCreate. intros H.
  apply bind_returns in H as (response & w0 & [= <- <-] & H).
  destruct (games w !! name) as [row|] eqn:Hrow.
  - apply bind_returns in H as (p & w1 & H1 & H).
    apply bind_returns in H as (d & w2 & H2 & H).
    apply getPileData_returns in H1 as [Hp ->].
    apply getPileData_returns in H2 as [Hd ->].
    injection H as <- <-. unfold snapshotOf.
    cbn [gameName scores deckId gamesWon gamesLost playerPile dealerPile].
    rewrite !serverPile_sent. destruct row. auto.
  - apply bind_returns in H as (id & w1 & [= <- <-] & H).
    apply bind_returns in H as ([] & w2 & [= <-] & H).
    apply deal_returns in H as (p & d & w3 & [= <- <-] & Hp & Hd & Hg & _).
    unfold snapshotOf.
    cbn [gameName scores deckId gamesWon gamesLost playerPile dealerPile].
    rewrite Hg. cbn [games set_games sent]. rewrite lookup_insert_eq. auto.
Qed.

(** X9.  When [getOrCreate] answers, the answer is the game asked for,
    with no score in it, and it is what the server then holds: the row of
    the game carries its deck and counters and the piles of the deck are
    its piles. *)
Theorem getOrCreate_answers_the_stored_game w name (g : Game) w' :
  getOrCreate name w = (Some g, w') ->
  gameName g = name /\ scores g = ∅ /\ snapshotOf w' g.
Proof. apply getOrCreate_returns. Qed.

(** X10.  Asking twice gives the same game: after [getOrCreate] has
    answered, a second request for the same name answers the same
    snapshot and changes neither the table nor the decks. *)
Theorem getOrCreate_twice w name (g : Game) w1 :
  getOrCreate name w = (Some g, w1) ->
  exists w2,
    getOrCreate name w1 = (Some g, w2)
    /\ games w2 = games w1 /\ decks w2 = decks w1 /\ minted w2 = minted w1.
Proof.
  intros H. apply getOrCreate_returns in H as (Hn & Hs & Hrow & Hp & Hd).
  destruct g as [gn id won lost dp pp sc].
  cbn [gameName scores deckId gamesWon gamesLost playerPile dealerPile] in *. subst gn sc.
  eexists. split; [|split; [|split]].
  - apply (getOrCreate_existing_run w1 name _ pp dp Hrow); [exact Hp|exact Hd].
  - reflexivity.
  - reflexivity.
  - reflexivity.
Qed.

(** X11.  Whether it answers or throws, [getOrCreate] leaves every row
    of the table as it is; for a name that has no row it adds the row of
    the deck it mints with both counters at zero, and it adds it even
    when the deal that follows throws. *)
Theorem getOrCreate_table w name :
  games (snd (getOrCreate name w))
  = match games w !! name with
    | Some _ => games w
    | None => <[name := mkRow (minted w) 0 0]> (games w)
    end.
Proof.
  unfold getOrCreate. erewrite bind_run by reflexivity.
  destruct (games w !! name) as [row|] eqn:Hrow.
  - match goal with |- games (snd (?m ?w0)) = _ =>
      assert (Hk : keeps games m); [|exact (Hk w0)] end.
    apply keeps_bind; [now apply keeps_getPileData|]. intros p.
    apply keeps_bind; [now apply keeps_getPileData|]. intros d w0. reflexivity.
  - erewrite bind_run by reflexivity.
    erewrite bind_run by reflexivity.
    match goal with |- games (snd (?m ?w0)) = _ =>
      assert (Hk : keeps games m); [|exact (Hk w0)] end.
    repeat (apply keeps_bind;
            [first [now apply keeps_drawCardToHand | now apply keeps_getPileData]
            |intros ?]).
    intros w0. reflexivity.
Qed.

(** ** The log of requests only grows *)

Lemma appends_bind {A B} (m : M World A) (f : A -> M World B) :
  appends m -> (forall a, appends (f a)) -> appends (m ≫= f).
Proof.
  intros Hm Hf w. unfold mbind, M_bind.
  destruct (Hm w) as [more1 H1]. destruct (m w) as [[a|] w1]; cbn [snd] in *.
  - destruct (Hf a w1) as [more2 H2]. exists (more1 ++ more2).
    now rewrite H2, H1, app_assoc.
  - eauto.
Qed.

Lemma appends_silent {A} (m : M World A) :
  (forall w, requests (snd (m w)) = requests w) -> appends m.
Proof. intros H w. exists []. now rewrite app_nil_r. Qed.

Lemma appends_drawCardToHand id hand : appends (drawCardToHand id hand).
Proof.
  intros w. destruct (drawCardToHand id hand w) as [[[]|] w'] eqn:Hd.
  - apply drawCardToHand_returns in Hd as (c & rest & ps & _ & ->). cbn. eauto.
  - apply drawCardToHand_throws in Hd as [-> _]. exists []. cbn. now rewrite app_nil_r.
Qed.

Lemma appends_getPileData id hand : appends (getPileData id hand).
Proof.
  intros w. unfold getPileData.
  destruct (decks w !! id) as [d|]; [destruct (piles d !! hand)|]; cbn;
    eauto; exists []; now rewrite app_nil_r.
Qed.

(** ** Deals that fail *)

Lemma drawCardToHand_empty id hand G DS n sh R ps :
  drawCardToHand id hand (mkWorld G (<[id := mkDeck [] ps]> DS) n sh R)
  = (None, mkWorld G (<[id := mkDeck [] ps]> DS) n sh R).
Proof.
  unfold drawCardToHand, drawOne, mbind, M_bind. cbn [decks].
  now rewrite lookup_insert_eq.
Qed.

Lemma deal_short {A} id G DS n sh R (l : list Card)
    (k : list Card -> list Card -> M World A) :
  (length l < 4)%nat ->
  fst ((drawCardToHand id "player";;
        drawCardToHand id "dealer";;
        drawCardToHand id "player";;
        drawCardToHand id "dealer";;
        playerPileData ← getPileData id "player";
        dealerPileData ← getPileData id "dealer";
        k playerPileData dealerPileData)
         (mkWorld G (<[id := mkDeck l ∅]> DS) n sh R)) = None.
Proof.
  intros Hlen.
  destruct l as [|c1 [|c2 [|c3 [|c4 l]]]]; cbn [length] in Hlen; try lia;
    repeat first
      [ erewrite bind_throw by apply drawCardToHand_empty; reflexivity
      | erewrite bind_run by (apply drawCardToHand_run; reflexivity) ].
Qed.

(** What the round-end route has done when it answers. *)
Lemma endGame_returns w name winner (g : Game) w' :
  Server.endGame name winner w = (Some g, w') ->
  gameName g = name /\ deckId g = minted w /\ scores g = ∅ /\ snapshotOf w' g.
Proof.
  unfold Server.endGame. intros H.
  apply bind_returns in H as (id & w1 & [= <- <-] & H).
  apply bind_returns in H as ([] & w2 & Hup & H).
  apply deal_returns in H as (p & d & w3 & H & Hp & Hd & Hg & _).
  apply bind_returns in H as (response & w4 & [= <- <-] & H).
  destruct (games w3 !! name) as [row|] eqn:Hrow; [|discriminate].
  injection H as <- <-. unfold snapshotOf.
  cbn [gameName scores deckId gamesWon gamesLost playerPile dealerPile].
  split; [reflexivity|]. split; [reflexivity|]. split; [reflexivity|].
  split; [|auto]. rewrite Hrow. f_equal.
  rewrite Hg in Hrow.
  assert (Hw2 : games w2 = alter (updated (minted w) winner) name (games w)).
  { destruct (String.eqb winner "player") eqn:Hw;
      injection Hup as <-; unfold updated; rewrite Hw; reflexivity. }
  rewrite Hw2, lookup_alter_eq in Hrow.
  destruct (games w !! name) as [row0|]; [|discriminate].
  injection Hrow as <-. unfold updated.
  destruct (String.eqb winner "player"); reflexivity.
Qed.

(** X12.  When the round-end route answers, the answer is the game
    asked for, bound to the deck minted for the request, and it is what
    the server then holds. *)
Theorem endGame_answers_the_stored_game w name winner (g : Game) w' :
  Server.endGame name winner w = (Some g, w') ->
  gameName g = name /\ deckId g = minted w /\ scores g = ∅ /\ snapshotOf w' g.
Proof. apply endGame_returns. Qed.

(** When the round-end route answers. *)
Lemma endGame_returns_iff w name winner :
  is_Some (fst (Server.endGame name winner w))
  <-> is_Some (games w !! name) /\ (4 <= length (shuffle w (minted w)))%nat.
Proof.
  split.
  - intros [g Hg].
    destruct (Server.endGame name winner w) as [r w'] eqn:Hrun.
    cbn [fst] in Hg. subst r.
    pose proof (endGame_returns _ _ _ _ _ Hrun) as (Hn & _ & _ & Hrow & _).
    split.
    + pose proof (endGame_games w name winner) as Hgames.
      rewrite Hrun in Hgames. cbn [snd] in Hgames.
      rewrite Hgames, Hn, lookup_alter_eq in Hrow.
      destruct (games w !! name); [eauto|discriminate].
    + destruct (decide (4 <= length (shuffle w (minted w)))%nat) as [|Hshort]; [assumption|].
      exfalso. destruct w as [G DS n sh R]. cbn [shuffle minted] in Hshort.
      assert (Hnone : fst (Server.endGame name winner (mkWorld G DS n sh R)) = None).
      { unfold Server.endGame.
        erewrite bind_run by reflexivity.
        erewrite bind_run with (s' :=
          mkWorld (alter (updated n winner) name G)
                  (<[n := mkDeck (sh n) ∅]> DS) (N.succ n) sh (R ++ [NewShuffle n]))
          by (unfold updated; destruct (String.eqb winner "player"); reflexivity).
        apply deal_short. lia. }
      rewrite Hrun in Hnone. discriminate.
  - intros [[row Hrow] Hlen].
    destruct (shuffle w (minted w)) as [|c1 [|c2 [|c3 [|c4 rest]]]] eqn:Hsh;
      cbn [length] in Hlen; try lia.
    rewrite (endGame_run w name winner c1 c2 c3 c4 rest Hsh), Hrow. cbn [fst]. eauto.
Qed.

(** X13.  The round-end route answers exactly when the game is stored
    and the deck it mints holds at least four cards. *)
Theorem endGame_answers_iff w name winner :
  is_Some (fst (Server.endGame name winner w))
  <-> is_Some (games w !! name) /\ (4 <= length (shuffle w (minted w)))%nat.
Proof. apply endGame_returns_iff. Qed.

(** X14.  A round end for a name that has no row throws, and leaves the
    table as it was: no row is created.  A deck is minted all the same. *)
Theorem endGame_of_unknown_game w name winner :
  games w !! name = None ->
  fst (Server.endGame name winner w) = None
  /\ games (snd (Server.endGame name winner w)) = games w
  /\ In (NewShuffle (minted w)) (requests (snd (Server.endGame name winner w))).
Proof.
  intros Hnone. split; [|split].
  - destruct (fst (Server.endGame name winner w)) as [g|] eqn:Hg; [|reflexivity].
    assert (Hsome : is_Some (fst (Server.endGame name winner w))) by (rewrite Hg; eauto).
    apply endGame_returns_iff in Hsome as [[row Hrow] _]. congruence.
  - rewrite endGame_games. apply map_eq. intros other.
    destruct (decide (other = name)) as [->|Hne].
    + now rewrite lookup_alter_eq, Hnone.
    + now rewrite lookup_alter_ne.
  - destruct w as [G DS n sh R]. cbn [minted]. unfold Server.endGame.
    erewrite bind_run by reflexivity.
    match goal with |- In _ (requests (snd (?m ?w0))) =>
      assert (Hk : appends m); [|destruct (Hk w0) as [more ->]] end.
    + apply appends_bind; [destruct (String.eqb winner "player"); apply appends_silent;
                           reflexivity|].
      intros _.
      repeat (apply appends_bind;
              [first [apply appends_drawCardToHand | apply appends_getPileData]
              |intros ?]).
      apply appends_bind; [apply appends_silent; reflexivity|].
      intros [row|]; apply appends_silent; reflexivity.
    + cbn [requests sent minted]. rewrite !in_app_iff. left. right. now left.
Qed.

(** X15.  [getOrCreate] answers exactly when, for a stored game, both
    piles of its deck can be listed and, for a new name, the deck it
    mints holds at least four cards. *)
Theorem getOrCreate_answers_iff w name :
  is_Some (fst (getOrCreate name w))
  <-> match games w !! name with
      | Some row =>
          is_Some (serverPile w (row_deckId row) "player")
          /\ is_Some (serverPile w (row_deckId row) "dealer")
      | None => (4 <= length (shuffle w (minted w)))%nat
      end.
Proof.
  destruct (games w !! name) as [row|] eqn:Hrow.
  - split.
    + intros [g Hg]. destruct (getOrCreate name w) as [r w'] eqn:Hrun.
      cbn [fst] in Hg. subst r. unfold getOrCreate in Hrun.
      apply bind_returns in Hrun as (response & w0 & [= <- <-] & H).
      rewrite Hrow in H.
      apply bind_returns in H as (p & w1 & H1 & H).
      apply bind_returns in H as (d & w2 & H2 & H).
      apply getPileData_returns in H1 as [Hp ->].
      apply getPileData_returns in H2 as [Hd ->].
      rewrite serverPile_sent in Hd. split; eauto.
    + intros [[p Hp] [d Hd]].
      rewrite (getOrCreate_existing_run w name row p d Hrow Hp Hd). cbn [fst]. eauto.
  - split.
    + intros Hsome.
      destruct (decide (4 <= length (shuffle w (minted w)))%nat) as [|Hshort]; [assumption|].
      exfalso. destruct w as [G DS n sh R]. cbn [shuffle minted games] in *.
      assert (Hnone : fst (getOrCreate name (mkWorld G DS n sh R)) = None).
      { unfold getOrCreate. erewrite bind_run by reflexivity. cbn [games]. rewrite Hrow.
        erewrite bind_run by reflexivity.
        erewrite bind_run by reflexivity.
        apply deal_short. cbn [shuffle minted]. lia. }
      rewrite Hnone in Hsome. destruct Hsome. discriminate.
    + intros Hlen.
      destruct (shuffle w (minted w)) as [|c1 [|c2 [|c3 [|c4 rest]]]] eqn:Hsh;
        cbn [length] in Hlen; try lia.
      rewrite (getOrCreate_run w name c1 c2 c3 c4 rest Hrow Hsh). cbn [fst]. eauto.
Qed.

End RoutesMore.

(** * More on the client *)

Section ClientMore.

Import Client Session.

Implicit Types (b : Browser) (g : Game) (w : Server.World).

Lemma fetch_returns {A} (route : M Server.World A) b (a : A) b' :
  fetch route b = (Some a, b') ->
  exists w', route (server b) = (Some a, w') /\ b' = mkBrowser (game b) w' (alerts b).
Proof.
  unfold fetch. destruct (route (server b)) as [r w']. intros [= -> <-]. eauto.
Qed.

Lemma fetch_throws {A} (route : M Server.World A) b :
  route (server b) = (None, server b) -> fetch route b = (None, b).
Proof. unfold fetch. intros ->. now destruct b. Qed.

(** ** Entering a game and ending a round *)

Lemma initGame_run b :
  initGame b = (Some tt, mkBrowser (rescored (game b)) (server b) (alerts b)).
Proof. reflexivity. Qed.

Lemma scored_rescored g : scored (rescored g).
Proof.
  unfold scored, rescored, set_score. cbn [scores playerPile dealerPile]. split.
  - rewrite lookup_insert_ne by discriminate. apply lookup_insert_eq.
  - apply lookup_insert_eq.
Qed.

Lemma inSync_rescored w g (al : list Alert) :
  snapshotOf w g -> inSync (mkBrowser (rescored g) w al).
Proof. intros H. split; [exact H|apply scored_rescored]. Qed.

Lemma createOrJoinGame_run (name : string) b :
  createOrJoinGame name b
  = match Server.getOrCreate name (server b) with
    | (Some g, w') => (Some tt, mkBrowser (rescored g) w' (alerts b))
    | (None, w') => (None, mkBrowser (game b) w' (alerts b))
    end.
Proof.
  unfold createOrJoinGame, fetch, mbind, M_bind.
  destruct (Server.getOrCreate name (server b)) as [[g|] w']; reflexivity.
Qed.

Lemma client_endGame_run (winner : string) b :
  Client.endGame winner b
  = match Server.endGame (gameName (game b)) winner (server b) with
    | (Some g, w') => (Some tt, mkBrowser (rescored g) w' (alerts b))
    | (None, w') => (None, mkBrowser (game b) w' (alerts b))
    end.
Proof.
  unfold Client.endGame, get, fetch, mbind, M_bind.
  destruct (Server.endGame (gameName (game b)) winner (server b)) as [[g|] w'];
    reflexivity.
Qed.

(** What a round end has done when it returns. *)
Lemma endGame_done (winner : string) b b' :
  Client.endGame winner b = (Some tt, b') ->
  inSync b'
  /\ alerts b' = alerts b
  /\ gameName (game b') = gameName (game b)
  /\ deckId (game b') = Server.minted (server b)
  /\ Server.games (server b')
     = alter (Server.updated (Server.minted (server b)) winner) (gameName (game b))
             (Server.games (server b)).
Proof.
  rewrite client_endGame_run.
  pose proof (endGame_games (server b) (gameName (game b)) winner) as Hgames.
  destruct (Server.endGame (gameName (game b)) winner (server b)) as [[g|] w'] eqn:Hrun;
    [|discriminate].
  intros [= <-]. apply endGame_returns in Hrun as (Hn & Hid & _ & Hsnap).
  split; [now apply inSync_rescored|]. auto.
Qed.

(** X16.  When [createOrJoinGame] returns for a plain name (one that
    the URL carries unchanged), the tab shows the game of
    that name as the server holds it: the row of the game carries the
    deck and counters shown, the piles of the deck are the piles shown,
    and both scores are the scores of the piles shown.  No alert is
    raised. *)
Theorem createOrJoinGame_in_sync (name : string) b b' :
  plainName name = true ->
  createOrJoinGame name b = (Some tt, b') ->
  inSync b' /\ gameName (game b') = name /\ alerts b' = alerts b.
Proof.
  intros _. rewrite createOrJoinGame_run.
  destruct (Server.getOrCreate name (server b)) as [[g|] w'] eqn:Hrun; [|discriminate].
  intros [= <-]. apply getOrCreate_returns in Hrun as (Hn & _ & Hsnap).
  split; [now apply inSync_rescored|]. auto.
Qed.


(** ** [hit] *)

(** The tab right after the card of a hit has arrived. *)
Lemma hit_run b (c : Card) rest ps :
  Server.decks (server b) !! deckId (game b) = Some (Server.mkDeck (c :: rest) ps) ->
  let pile := default [] (ps !! "player") ++ [c] in
  let s := Score.score pile in
  exists w1,
    Server.draw (deckId (game b)) "player" (server b) = (Some pile, w1)
    /\ hit b
       = let b1 := mkBrowser (set_score PLAYER s (set_playerPile pile (game b))) w1 (alerts b) in
         if gt s (Num 21) then (alert (YouLoseScore s);; Client.endGame DEALER) b1
         else if decide (s = Num 21) then (alert YouWin21;; Client.endGame PLAYER) b1
         else (Some tt, b1).
Proof.
  intros Hd pile s.
  destruct (draw_run (deckId (game b)) "player" (server b) c rest ps Hd)
    as (w1 & Hdraw & _).
  exists w1. split; [exact Hdraw|].
  unfold hit. erewrite bind_run by reflexivity.
  erewrite bind_run by (unfold fetch; rewrite Hdraw; reflexivity).
  erewrite bind_run by reflexivity.
  erewrite bind_run by reflexivity.
  erewrite bind_run by reflexivity.
  cbn [game set_game]. rewrite score_of_set_score.
  change (scorePlayer (set_playerPile (default [] (ps !! "player") ++ [c]) (game b)) PLAYER)
    with s.
  destruct (gt s (Num 21)); [reflexivity|].
  destruct (decide (s = Num 21)); reflexivity.
Qed.

(** X18.  A hit on a deck that has a card left puts the top card at the
    end of the player's pile and scores the pile.  Above 21 it alerts the
    loss and ends the round for the dealer; at 21 exactly it alerts the
    win and ends the round for the player; below 21 (or when the score is
    not a number) it raises no alert, ends no round and leaves the table
    and the dealer's side alone. *)
Theorem hit_outcome b (c : Card) rest ps :
  Server.decks (server b) !! deckId (game b) = Some (Server.mkDeck (c :: rest) ps) ->
  let pile := default [] (ps !! "player") ++ [c] in
  let s := Score.score pile in
  exists b1,
    game b1 = set_score PLAYER s (set_playerPile pile (game b))
    /\ alerts b1 = alerts b
    /\ Server.games (server b1) = Server.games (server b)
    /\ serverDeck (server b1) (deckId (game b)) = Some rest
    /\ serverPile (server b1) (deckId (game b)) "player" = Some pile
    /\ serverPile (server b1) (deckId (game b)) "dealer"
       = serverPile (server b) (deckId (game b)) "dealer"
    /\ hit b
       = if gt s (Num 21) then (alert (YouLoseScore s);; Client.endGame DEALER) b1
         else if decide (s = Num 21) then (alert YouWin21;; Client.endGame PLAYER) b1
         else (Some tt, b1).
Proof.
  intros Hd pile s.
  destruct (hit_run b c rest ps Hd) as (w1 & Hdraw & Hhit).
  destruct (draw_run (deckId (game b)) "player" (server b) c rest ps Hd)
    as (w1' & Hdraw' & Hdeck & Hpile & Hother & _ & Hgames & _).
  rewrite Hdraw in Hdraw'. injection Hdraw' as <-.
  exists (mkBrowser (set_score PLAYER s (set_playerPile pile (game b))) w1 (alerts b)).
  cbn [game alerts server].
  split; [reflexivity|]. split; [reflexivity|]. split; [exact Hgames|].
  split; [exact Hdeck|]. split; [exact Hpile|].
  split; [apply Hother; discriminate|exact Hhit].
Qed.

(** X19.  A hit keeps the tab in step with the server: if the tab shows
    the game as the server holds it, it still does when [hit] returns,
    whether the round went on or ended. *)
Theorem hit_in_sync b b' :
  inSync b -> hit b = (Some tt, b') -> inSync b'.
Proof.
  intros [(Hrow & Hp & Hdl) [Hsp Hsd]] Hhit.
  assert (Hd : exists c rest ps,
             Server.decks (server b) !! deckId (game b)
             = Some (Server.mkDeck (c :: rest) ps)).
  { unfold hit in Hhit.
    apply bind_returns in Hhit as (b0 & s0 & [= <- <-] & H).
    apply bind_returns in H as (pile & s1 & Hfetch & _).
    apply fetch_returns in Hfetch as (w' & Hdraw & _).
    apply draw_returns in Hdraw as (c & rest & ps & Hd & _). eauto. }
  destruct Hd as (c & rest & ps & Hd).
  destruct (hit_run b c rest ps Hd) as (w1 & Hdraw & Hrun). cbn zeta in Hrun.
  destruct (draw_run (deckId (game b)) "player" (server b) c rest ps Hd)
    as (w1' & Hdraw' & _ & Hpile & Hother & _ & Hgames & _).
  rewrite Hdraw in Hdraw'. injection Hdraw' as <-.
  rewrite Hrun in Hhit. clear Hrun.
  destruct (gt _ _).
  - apply bind_returns in Hhit as ([] & b2 & _ & Hend).
    now apply endGame_done in Hend as [Hsync _].
  - destruct (decide _).
    + apply bind_returns in Hhit as ([] & b2 & _ & Hend).
      now apply endGame_done in Hend as [Hsync _].
    + injection Hhit as <-. split; [split; [|split]|split].
      * cbn [game server]. cbn [gameName deckId gamesWon gamesLost set_score set_playerPile].
        now rewrite Hgames.
      * exact Hpile.
      * cbn [game server]. cbn [deckId dealerPile set_score set_playerPile].
        rewrite Hother by discriminate. exact Hdl.
      * cbn [game]. cbn [scores playerPile set_score set_playerPile].
        apply lookup_insert_eq.
      * cbn [game]. cbn [scores dealerPile set_score set_playerPile].
        rewrite lookup_insert_ne by discriminate. exact Hsd.
Qed.

(** ** A deck without a card *)

Lemma dealerDraw_empty b :
  serverDeck (server b) (deckId (game b)) = None
  \/ serverDeck (server b) (deckId (game b)) = Some [] ->
  dealerDraw b = (None, b).
Proof.
  intros H. unfold dealerDraw. erewrite bind_run by reflexivity.
  erewrite bind_throw; [reflexivity|].
  apply fetch_throws. now apply draw_empty_run.
Qed.

(** X20.  On a deck that is unknown or has no card left, [hit] throws,
    and so does [stand] when the dealer is below 17; neither changes the
    tab or the server nor raises an alert, and the round is not ended. *)
Theorem no_card_no_move b :
  serverDeck (server b) (deckId (game b)) = None
  \/ serverDeck (server b) (deckId (game b)) = Some [] ->
  hit b = (None, b)
  /\ (lt (score_of (game b) DEALER) (Num 17) = true -> stand b = (None, b)).
Proof.
  intros H. split.
  - unfold hit. erewrite bind_run by reflexivity.
    erewrite bind_throw; [reflexivity|].
    apply fetch_throws. now apply draw_empty_run.
  - intros Hlt. unfold stand. erewrite bind_throw; [reflexivity|].
    cbn [dealerLoop]. rewrite Hlt.
    erewrite bind_throw; [reflexivity|]. now apply dealerDraw_empty.
Qed.

(** ** The dealer's turn, card by card *)

(** One iteration of the loop of [stand] on a deck that has a card. *)
Lemma dealerDraw_run b (c : Card) rest ps :
  Server.decks (server b) !! deckId (game b) = Some (Server.mkDeck (c :: rest) ps) ->
  let pile := default [] (ps !! "dealer") ++ [c] in
  exists w1,
    dealerDraw b
    = (Some tt,
       mkBrowser (set_score DEALER (Score.score pile) (set_dealerPile pile (game b)))
                 w1 (alerts b))
    /\ serverDeck w1 (deckId (game b)) = Some rest
    /\ serverPile w1 (deckId (game b)) "dealer" = Some pile
    /\ serverPile w1 (deckId (game b)) "player"
       = serverPile (server b) (deckId (game b)) "player"
    /\ Server.games w1 = Server.games (server b)
    /\ Server.minted w1 = Server.minted (server b).
Proof.
  intros Hd pile.
  destruct (draw_run (deckId (game b)) "dealer" (server b) c rest ps Hd)
    as (w1 & Hdraw & Hdeck & Hpile & Hother & _ & Hgames & _).
  exists w1. split; [|split; [exact Hdeck|split; [exact Hpile|split; [|split]]]].
  - unfold dealerDraw. erewrite bind_run by reflexivity.
    erewrite bind_run by (unfold fetch; rewrite Hdraw; reflexivity).
    reflexivity.
  - apply Hother. discriminate.
  - exact Hgames.
  - apply (returns_keeps Server.minted _ _ _ _
             (keeps_draw Server.minted (deckId (game b)) "dealer"
                         ltac:(reflexivity) ltac:(reflexivity)) Hdraw).
Qed.

Lemma deck_cases w (id : DeckId) :
  (exists c rest ps, Server.decks w !! id = Some (Server.mkDeck (c :: rest) ps))
  \/ (serverDeck w id = None \/ serverDeck w id = Some []).
Proof.
  unfold serverDeck. destruct (Server.decks w !! id) as [[[|c rest] ps]|]; cbn; eauto 6.
Qed.

Lemma dealerOnly_refl b : dealerOnly b b.
Proof. unfold dealerOnly. tauto. Qed.

Lemma dealerOnly_trans b1 b2 b3 : dealerOnly b1 b2 -> dealerOnly b2 b3 -> dealerOnly b1 b3.
Proof.
  unfold dealerOnly.
  intros (Hn & Hid & Hp & Hs & Ha & Hg & Hm & Hsp & Hc)
         (Hn' & Hid' & Hp' & Hs' & Ha' & Hg' & Hm' & Hsp' & Hc').
  rewrite Hid in Hsp'.
  repeat split; congruence.
Qed.

Lemma dealerDraw_dealerOnly b (r : option unit) b1 :
  dealerDraw b = (r, b1) -> dealerOnly b b1.
Proof.
  intros H. destruct (deck_cases (server b) (deckId (game b)))
    as [(c & rest & ps & Hd)|Hempty].
  - destruct (dealerDraw_run b c rest ps Hd)
      as (w1 & Hrun & _ & _ & Hplayer & Hgames & Hminted).
    pose proof Hrun as Hstep. apply dealerDraw_step in Hstep as (_ & Hcards & _).
    rewrite Hrun in H. injection H as _ <-.
    unfold dealerOnly. cbn [game server alerts] in *.
    repeat split; try assumption; try reflexivity.
    unfold score_of, set_score, set_dealerPile. cbn [scores].
    now rewrite lookup_insert_ne by discriminate.
  - rewrite (dealerDraw_empty b Hempty) in H. injection H as _ <-.
    apply dealerOnly_refl.
Qed.

Lemma dealerLoop_dealerOnly (fuel : nat) b (r : option unit) b' :
  dealerLoop fuel b = (r, b') -> dealerOnly b b'.
Proof.
  revert b. induction fuel as [|fuel IH]; intros b; cbn [dealerLoop];
    destruct (lt (score_of (game b) DEALER) (Num 17));
    try (intros [= _ <-]; apply dealerOnly_refl).
  unfold mbind, M_bind. destruct (dealerDraw b) as [[[]|] b1] eqn:Hdraw.
  - intros Hloop. apply (dealerOnly_trans b b1 b').
    + exact (dealerDraw_dealerOnly _ _ _ Hdraw).
    + exact (IH _ Hloop).
  - intros [= _ <-]. exact (dealerDraw_dealerOnly _ _ _ Hdraw).
Qed.

(** X21.  Whether it ends or throws, the loop of the dealer's turn
    changes the dealer's side only: the game, its deck, the player's pile
    and score, the alerts and the table are as before, and the dealer's
    pile followed by the deck is the same sequence of cards, so that no
    card is lost, made up or reordered. *)
Theorem dealer_turn_touches_dealer_only (fuel : nat) b (r : option unit) b' :
  dealerLoop fuel b = (r, b') -> dealerOnly b b'.
Proof. apply dealerLoop_dealerOnly. Qed.

(** X22.  When [stand] returns for a game with a plain name (one that
    the URL carries unchanged) it has raised exactly one alert and
    recorded the round once: either it told the player of a win and the
    row of the game has one more win, or it told of a loss and the row
    has one more loss; the row is bound to the deck minted for the round
    end and the tab shows the new round as the server holds it. *)
Theorem stand_records_the_round b b' :
  plainName (gameName (game b)) = true ->
  stand b = (Some tt, b') ->
  inSync b'
  /\ exists p d,
       (alerts b' = alerts b ++ [YouWin p d]
        /\ Server.games (server b')
           = alter (Server.updated (Server.minted (server b)) PLAYER)
                   (gameName (game b)) (Server.games (server b)))
       \/ (alerts b' = alerts b ++ [YouLose p d]
           /\ Server.games (server b')
              = alter (Server.updated (Server.minted (server b)) DEALER)
                      (gameName (game b)) (Server.games (server b))).
Proof.
  unfold stand. intros _ H.
  apply bind_returns in H as ([] & b1 & Hloop & Hwin).
  apply dealerLoop_dealerOnly in Hloop as (Hn & _ & _ & _ & Ha & Hg & Hm & _).
  rewrite determineWinner_run in Hwin.
  set (p := score_of (game b1) PLAYER) in *. set (d := score_of (game b1) DEALER) in *.
  destruct (gt d (Num 21) || lt d p).
  - unfold playerWins in Hwin.
    apply bind_returns in Hwin as ([] & b2 & [= <-] & Hend).
    apply endGame_done in Hend as (Hsync & Hal & _ & _ & Hgames).
    cbn [game server alerts] in *. split; [exact Hsync|].
    exists p, d. left. rewrite Hal, Hgames, Ha, Hg, Hm, Hn. auto.
  - unfold dealerWins in Hwin.
    apply bind_returns in Hwin as ([] & b2 & [= <-] & Hend).
    apply endGame_done in Hend as (Hsync & Hal & _ & _ & Hgames).
    cbn [game server alerts] in *. split; [exact Hsync|].
    exists p, d. right. rewrite Hal, Hgames, Ha, Hg, Hm, Hn. auto.
Qed.

(** The dealer's side of the tab and of the server after one draw. *)
Lemma dealerDraw_side b b1 :
  dealerDraw b = (Some tt, b1) ->
  exists c,
    deckOf b = c :: deckOf b1
    /\ dealerPileOf b1 = dealerPileOf b ++ [c]
    /\ dealerPile (game b1) = dealerPileOf b1
    /\ score_of (game b1) DEALER = Score.score (dealerPileOf b ++ [c]).
Proof.
  intros H. destruct (deck_cases (server b) (deckId (game b)))
    as [(c & rest & ps & Hd)|Hempty].
  - destruct (dealerDraw_run b c rest ps Hd) as (w1 & Hrun & Hdeck & Hpile & _).
    rewrite Hrun in H. injection H as <-. exists c.
    unfold deckOf, dealerPileOf, serverDeck, serverPile in *.
    cbn [game server deckId set_score set_dealerPile dealerPile] in *.
    rewrite Hdeck, Hpile, Hd. cbn.
    split; [reflexivity|]. split; [reflexivity|]. split; [reflexivity|].
    apply score_of_set_score.
  - rewrite (dealerDraw_empty b Hempty) in H. discriminate.
Qed.

(** X23.  The dealer draws from the top of the deck, in order, and only
    while below 17: when the loop of [stand] ends, the cards it drew are
    the first cards of the deck, they are at the end of the dealer's pile
    in that order, the tab shows that pile, and before each draw the
    dealer's score was below 17. *)
Theorem dealer_draws_only_below_17 (fuel : nat) b b' :
  dealerLoop fuel b = (Some tt, b') ->
  exists drawn : list Card,
    deckOf b = drawn ++ deckOf b'
    /\ dealerPileOf b' = dealerPileOf b ++ drawn
    /\ (drawn = [] -> b' = b)
    /\ (drawn <> [] -> dealerPile (game b') = dealerPileOf b')
    /\ (forall k, (k < length drawn)%nat ->
                   lt (scoreBeforeDraw b drawn k) (Num 17) = true).
Proof.
  revert b. induction fuel as [|fuel IH]; intros b; cbn [dealerLoop];
    destruct (lt (score_of (game b) DEALER) (Num 17)) eqn:Hlt;
    try (intros [= <-]; exists []; cbn [app length]; rewrite app_nil_r;
         repeat split; [congruence|intros k Hk; lia]).
  intros H. apply bind_returns in H as ([] & b1 & Hdraw & Hloop).
  apply dealerDraw_side in Hdraw as (c & Hdeck & Hpile & Hshown & Hscore).
  destruct (IH b1 Hloop) as (drawn1 & Hdeck1 & Hpile1 & Hnone & Hsome & Hbelow).
  exists (c :: drawn1). split; [|split; [|split; [|split]]].
  - rewrite Hdeck, Hdeck1. reflexivity.
  - rewrite Hpile1, Hpile, <- app_assoc. reflexivity.
  - discriminate.
  - intros _. destruct drawn1 as [|c1 drawn1].
    + rewrite (Hnone eq_refl). exact Hshown.
    + apply Hsome. discriminate.
  - intros [|k] Hk; cbn [scoreBeforeDraw]; [exact Hlt|].
    cbn [length] in Hk. assert (Hk1 : (k < length drawn1)%nat) by lia.
    specialize (Hbelow k Hk1).
    change (take (S k) (c :: drawn1)) with (c :: take k drawn1).
    destruct k as [|k]; cbn [scoreBeforeDraw] in Hbelow.
    + change (take 0 drawn1) with (@nil Card). now rewrite <- Hscore.
    + rewrite Hpile, <- app_assoc in Hbelow. exact Hbelow.
Qed.

(** X24.  A dealer's pile that holds an unreadable value scores [NaN],
    and [NaN] is neither below 17 nor above 21 nor below any score: on a
    scored game [stand] then draws nothing and tells the player of a
    loss. *)
Theorem unreadable_dealer_card_wins b (card : Card) :
  scored (game b) ->
  In card (dealerPile (game b)) ->
  unreadable (value card) ->
  stand b = dealerWins (score_of (game b) PLAYER) NaN b.
Proof.
  intros [_ Hd] Hin Hun.
  assert (Hnan : score_of (game b) DEALER = NaN).
  { unfold score_of. rewrite Hd. cbn [default]. now apply (score_unreadable _ card). }
  unfold stand. erewrite bind_run with (s' := b) (a := tt)
    by (cbn [dealerLoop]; rewrite Hnan; reflexivity).
  rewrite determineWinner_run, Hnan. reflexivity.
Qed.

(** ** The dealer's turn comes to an end *)

Lemma hardTotal_length (ranks : list Rank) :
  lowRanks ranks -> Z.of_nat (length ranks) <= hardTotal ranks.
Proof.
  intros H. induction H as [|r ranks Hr _ IH]; [simpl; lia|].
  rewrite hardTotal_cons. cbn [length]. lia.
Qed.

(** A pile of cards of the data model scores at least one per card. *)
Lemma score_at_least_length (pile : list Card) :
  wellFormed pile ->
  exists s : Z, Score.score pile = Num s /\ Z.of_nat (length pile) <= s.
Proof.
  intros [ranks Hr]. exists (Spec.score ranks).
  split; [now apply score_ranks|].
  pose proof (hardTotal_least _ _ (score_in_totals ranks)) as Hle.
  pose proof (hardTotal_length ranks (ranks_of_low pile ranks Hr)) as Hlen.
  rewrite (ranks_of_length pile ranks Hr) in Hlen. lia.
Qed.

Lemma dealerCards_split b :
  dealerCards b = dealerPileOf b ++ deckOf b.
Proof.
  unfold dealerCards, dealerPileOf, deckOf, serverPile, serverDeck.
  destruct (Server.decks (server b) !! deckId (game b)) as [d|]; reflexivity.
Qed.

Lemma cardsLeft_deckOf b : cardsLeft b = length (deckOf b).
Proof.
  unfold cardsLeft, deckOf, serverDeck.
  destruct (Server.decks (server b) !! deckId (game b)) as [d|]; reflexivity.
Qed.

Lemma deckOf_nonempty b (c : Card) rest :
  deckOf b = c :: rest ->
  exists ps, Server.decks (server b) !! deckId (game b)
             = Some (Server.mkDeck (c :: rest) ps).
Proof.
  unfold deckOf, serverDeck.
  destruct (Server.decks (server b) !! deckId (game b)) as [[l ps]|]; cbn;
    [intros ->; eauto|discriminate].
Qed.

Lemma dealerLoop_returns (fuel : nat) b :
  (cardsLeft b < fuel)%nat ->
  wellFormed (dealerCards b) ->
  (17 <= cardsLeft b)%nat
  \/ (score_of (game b) DEALER = Score.score (dealerPileOf b)
      /\ (17 <= length (dealerPileOf b) + cardsLeft b)%nat) ->
  exists b', dealerLoop fuel b = (Some tt, b').
Proof.
  revert b. induction fuel as [|fuel IH]; intros b Hfuel Hwf Hinv; [lia|].
  cbn [dealerLoop].
  destruct (lt (score_of (game b) DEALER) (Num 17)) eqn:Hlt; [|eauto].
  destruct (deckOf b) as [|c rest] eqn:Hdeck.
  - exfalso. rewrite cardsLeft_deckOf, Hdeck in Hinv. cbn [length] in Hinv.
    destruct Hinv as [|[Hscore Hlen]]; [lia|].
    rewrite dealerCards_split, Hdeck, app_nil_r in Hwf.
    destruct (score_at_least_length _ Hwf) as (s & Hs & Hge).
    rewrite Hscore, Hs in Hlt. cbn [lt] in Hlt. apply Z.ltb_lt in Hlt. lia.
  - destruct (deckOf_nonempty b c rest Hdeck) as [ps Hd].
    destruct (dealerDraw_run b c rest ps Hd) as (w1 & Hrun & _).
    erewrite bind_run by exact Hrun.
    pose proof (dealerDraw_side _ _ Hrun) as (c' & Hdeck' & Hpile' & _ & Hscore').
    pose proof (dealerDraw_step _ _ Hrun) as (Hleft & Hcards & _).
    rewrite Hdeck in Hdeck'. injection Hdeck' as <- Hrest.
    apply IH.
    + lia.
    + now rewrite Hcards.
    + right. split.
      * now rewrite Hscore', Hpile'.
      * rewrite Hpile', length_app. cbn [length].
        destruct Hinv as [|[_ Hlen]]; lia.
Qed.

(** X25.  With at least 17 cards left in the deck, all of them and the
    dealer's cards being cards of the data model, the loop of the
    dealer's turn never runs out of cards: it ends without a throw. *)
Theorem dealer_turn_ends b :
  wellFormed (dealerCards b) ->
  (17 <= cardsLeft b)%nat ->
  exists b', dealerLoop (S (cardsLeft b)) b = (Some tt, b').
Proof.
  intros Hwf Hleft. apply dealerLoop_returns; [lia|exact Hwf|now left].
Qed.

End ClientMore.

(** * More sample runs *)

Section MoreSamples.

Import Sample Client Session.

Lemma score_closed_form_witness :
  ranks_of [ace; ace'; nine] = Some [Ace; Ace; Number 9]
  /\ Score.score [ace; ace'; nine] = Num (handValue [Ace; Ace; Number 9]).
Proof.
  assert (H : ranks_of [ace; ace'; nine] = Some [Ace; Ace; Number 9]) by reflexivity.
  split; [exact H|]. apply (score_closed_form _ _ H).
Defined.

Lemma bust_iff_hard_total_witness :
  ranks_of [king; queen; two] = Some [King; Queen; Number 2]
  /\ exists s : Z, Score.score [king; queen; two] = Num s /\ 21 < s.
Proof.
  assert (H : ranks_of [king; queen; two] = Some [King; Queen; Number 2]) by reflexivity.
  split; [exact H|].
  destruct (bust_iff_hard_total _ _ H) as (s & Hs & Hiff & _).
  exists s. split; [exact Hs|]. apply Hiff. vm_compute. reflexivity.
Defined.

Lemma two_cards_never_bust_witness :
  ranks_of [ace; ace'] = Some [Ace; Ace]
  /\ (length [ace; ace'] <= 2)%nat
  /\ exists s : Z, Score.score [ace; ace'] = Num s /\ s <= 21.
Proof.
  assert (H : ranks_of [ace; ace'] = Some [Ace; Ace]) by reflexivity.
  assert (Hlen : (length [ace; ace'] <= 2)%nat) by (cbn; lia).
  split; [exact H|]. split; [exact Hlen|].
  apply (two_cards_never_bust _ _ H Hlen).
Defined.

Lemma draw_moves_score_within_bounds_witness :
  ranks_of [ace; nine] = Some [Ace; Number 9]
  /\ rank_of (value two) = Some (Number 2)
  /\ exists a b : Z,
       Score.score [ace; nine] = Num a
       /\ Score.score ([ace; nine] ++ [two]) = Num b
       /\ a - 9 <= b <= a + 11.
Proof.
  assert (H1 : ranks_of [ace; nine] = Some [Ace; Number 9]) by reflexivity.
  assert (H2 : rank_of (value two) = Some (Number 2)) by reflexivity.
  split; [exact H1|]. split; [exact H2|].
  apply (draw_moves_score_within_bounds _ _ _ _ H1 H2).
Defined.

Lemma unreadable_infinity : unreadable (value infinity).
Proof. split; [|split]; vm_compute; reflexivity. Qed.

Lemma unreadable_value_poisons_score_witness :
  In infinity [king; infinity]
  /\ unreadable (value infinity)
  /\ Score.score [king; infinity] = NaN.
Proof.
  assert (H1 : In infinity [king; infinity]) by (right; left; reflexivity).
  split; [exact H1|]. split; [exact unreadable_infinity|].
  apply (unreadable_value_poisons_score _ _ H1 unreadable_infinity).
Defined.


Lemma draw_needs_a_card_witness :
  (serverDeck world 7%N = None \/ serverDeck world 7%N = Some [])
  /\ Server.draw 7%N "player" world = (None, world).
Proof.
  assert (H : serverDeck world 7%N = None \/ serverDeck world 7%N = Some [])
    by (left; reflexivity).
  split; [exact H|]. apply (draw_needs_a_card _ _ _ H).
Defined.

Lemma getOrCreate_resumes_witness :
  Server.games world !! "table" = Some (Server.mkRow 0%N 3 4)
  /\ serverPile world 0%N "player" = Some [king; nine]
  /\ serverPile world 0%N "dealer" = Some [two; six]
  /\ fst (Server.getOrCreate "table" world)
     = Some (mkGame "table" 0%N 3 4 [two; six] [king; nine] ∅).
Proof.
  assert (H1 : Server.games world !! "table" = Some (Server.mkRow 0%N 3 4)) by reflexivity.
  assert (H2 : serverPile world 0%N "player" = Some [king; nine]) by reflexivity.
  assert (H3 : serverPile world 0%N "dealer" = Some [two; six]) by reflexivity.
  split; [exact H1|]. split; [exact H2|]. split; [exact H3|].
  rewrite (getOrCreate_resumes world "table" _ _ _ H1 H2 H3). reflexivity.
Defined.

Lemma getOrCreate_answers_the_stored_game_witness :
  Server.getOrCreate "lounge" world
  = (Some (mkGame "lounge" 1%N 0 0 [two; six] [king; nine] ∅),
     snd (Server.getOrCreate "lounge" world))
  /\ snapshotOf (snd (Server.getOrCreate "lounge" world))
                (mkGame "lounge" 1%N 0 0 [two; six] [king; nine] ∅).
Proof.
  assert (H : Server.getOrCreate "lounge" world
              = (Some (mkGame "lounge" 1%N 0 0 [two; six] [king; nine] ∅),
                 snd (Server.getOrCreate "lounge" world)))
    by (vm_compute; reflexivity).
  split; [exact H|].
  apply (getOrCreate_answers_the_stored_game _ _ _ _ H).
Defined.

Lemma getOrCreate_twice_witness :
  Server.getOrCreate "lounge" world
  = (Some (mkGame "lounge" 1%N 0 0 [two; six] [king; nine] ∅),
     snd (Server.getOrCreate "lounge" world))
  /\ exists w2,
       Server.getOrCreate "lounge" (snd (Server.getOrCreate "lounge" world))
       = (Some (mkGame "lounge" 1%N 0 0 [two; six] [king; nine] ∅), w2).
Proof.
  assert (H : Server.getOrCreate "lounge" world
              = (Some (mkGame "lounge" 1%N 0 0 [two; six] [king; nine] ∅),
                 snd (Server.getOrCreate "lounge" world)))
    by (vm_compute; reflexivity).
  split; [exact H|].
  destruct (getOrCreate_twice _ _ _ _ H) as (w2 & Hrun & _).
  exists w2. exact Hrun.
Defined.

Lemma endGame_answers_the_stored_game_witness :
  Server.endGame "table" "player" world
  = (Some (mkGame "table" 1%N 4 4 [two; six] [king; nine] ∅),
     snd (Server.endGame "table" "player" world))
  /\ snapshotOf (snd (Server.endGame "table" "player" world))
                (mkGame "table" 1%N 4 4 [two; six] [king; nine] ∅).
Proof.
  assert (H : Server.endGame "table" "player" world
              = (Some (mkGame "table" 1%N 4 4 [two; six] [king; nine] ∅),
                 snd (Server.endGame "table" "player" world)))
    by (vm_compute; reflexivity).
  split; [exact H|].
  apply (endGame_answers_the_stored_game _ _ _ _ _ H).
Defined.

Lemma endGame_of_unknown_game_witness :
  Server.games world !! "nobody" = None
  /\ fst (Server.endGame "nobody" "player" world) = None
  /\ Server.games (snd (Server.endGame "nobody" "player" world)) = Server.games world.
Proof.
  assert (H : Server.games world !! "nobody" = None) by reflexivity.
  split; [exact H|].
  destruct (endGame_of_unknown_game world "nobody" "player" H) as (H1 & H2 & _).
  split; [exact H1|exact H2].
Defined.

Lemma inSync_browser : inSync browser.
Proof. repeat split; vm_compute; reflexivity. Qed.

Lemma createOrJoinGame_in_sync_witness :
  plainName "table" = true
  /\ createOrJoinGame "table" browser
     = (Some tt, snd (createOrJoinGame "table" browser))
  /\ inSync (snd (createOrJoinGame "table" browser)).
Proof.
  assert (Hp : plainName "table" = true) by (vm_compute; reflexivity).
  assert (H : createOrJoinGame "table" browser
              = (Some tt, snd (createOrJoinGame "table" browser)))
    by (vm_compute; reflexivity).
  split; [exact Hp|]. split; [exact H|].
  destruct (createOrJoinGame_in_sync _ _ _ Hp H) as [Hsync _]. exact Hsync.
Defined.


Lemma hit_outcome_witness :
  Server.decks (server browser) !! deckId (game browser)
  = Some (Server.mkDeck (five :: [queen; ace]) (Server.dealtPiles king two nine six))
  /\ exists b1,
       alerts b1 = alerts browser
       /\ serverDeck (server b1) (deckId (game browser)) = Some [queen; ace].
Proof.
  assert (H : Server.decks (server browser) !! deckId (game browser)
              = Some (Server.mkDeck (five :: [queen; ace])
                                    (Server.dealtPiles king two nine six)))
    by reflexivity.
  split; [exact H|].
  destruct (hit_outcome browser _ _ _ H) as (b1 & _ & Hal & _ & Hdeck & _).
  exists b1. split; [exact Hal|exact Hdeck].
Defined.

Lemma hit_in_sync_witness :
  inSync browser
  /\ hit browser = (Some tt, snd (hit browser))
  /\ inSync (snd (hit browser)).
Proof.
  assert (H : hit browser = (Some tt, snd (hit browser))) by (vm_compute; reflexivity).
  split; [exact inSync_browser|]. split; [exact H|].
  apply (hit_in_sync _ _ inSync_browser H).
Defined.

Lemma no_card_no_move_witness :
  (serverDeck (server spent) (deckId (game spent)) = None
   \/ serverDeck (server spent) (deckId (game spent)) = Some [])
  /\ hit spent = (None, spent).
Proof.
  assert (H : serverDeck (server spent) (deckId (game spent)) = None
              \/ serverDeck (server spent) (deckId (game spent)) = Some [])
    by (right; reflexivity).
  split; [exact H|].
  destruct (no_card_no_move spent H) as [Hhit _]. exact Hhit.
Defined.

Lemma dealer_turn_touches_dealer_only_witness :
  dealerLoop 4 browser = (Some tt, snd (dealerLoop 4 browser))
  /\ dealerOnly browser (snd (dealerLoop 4 browser)).
Proof.
  assert (H : dealerLoop 4 browser = (Some tt, snd (dealerLoop 4 browser)))
    by (vm_compute; reflexivity).
  split; [exact H|]. apply (dealer_turn_touches_dealer_only _ _ _ _ H).
Defined.

Lemma stand_records_the_round_witness :
  plainName (gameName (game browser)) = true
  /\ stand browser = (Some tt, snd (stand browser))
  /\ inSync (snd (stand browser)).
Proof.
  assert (Hp : plainName (gameName (game browser)) = true) by (vm_compute; reflexivity).
  assert (H : stand browser = (Some tt, snd (stand browser)))
    by (vm_compute; reflexivity).
  split; [exact Hp|]. split; [exact H|].
  destruct (stand_records_the_round _ _ Hp H) as [Hsync _]. exact Hsync.
Defined.

Lemma dealer_draws_only_below_17_witness :
  dealerLoop 4 browser = (Some tt, snd (dealerLoop 4 browser))
  /\ exists drawn : list Card,
       deckOf browser = drawn ++ deckOf (snd (dealerLoop 4 browser))
       /\ dealerPileOf (snd (dealerLoop 4 browser)) = dealerPileOf browser ++ drawn.
Proof.
  assert (H : dealerLoop 4 browser = (Some tt, snd (dealerLoop 4 browser)))
    by (vm_compute; reflexivity).
  split; [exact H|].
  destruct (dealer_draws_only_below_17 _ _ _ H) as (drawn & H1 & H2 & _).
  exists drawn. split; [exact H1|exact H2].
Defined.

Lemma unreadable_dealer_card_wins_witness :
  scored (game poisoned)
  /\ In infinity (dealerPile (game poisoned))
  /\ unreadable (value infinity)
  /\ stand poisoned = dealerWins (score_of (game poisoned) PLAYER) NaN poisoned.
Proof.
  assert (H1 : scored (game poisoned)) by (split; vm_compute; reflexivity).
  assert (H2 : In infinity (dealerPile (game poisoned))) by (right; left; reflexivity).
  split; [exact H1|]. split; [exact H2|]. split; [exact unreadable_infinity|].
  apply (unreadable_dealer_card_wins _ _ H1 H2 unreadable_infinity).
Defined.

Lemma dealer_turn_ends_witness :
  wellFormed (dealerCards twos)
  /\ (17 <= cardsLeft twos)%nat
  /\ exists b', dealerLoop (S (cardsLeft twos)) twos = (Some tt, b').
Proof.
  assert (H1 : wellFormed (dealerCards twos))
    by (exists (Number 2 :: Number 6 :: replicate 17 (Number 2)); vm_compute; reflexivity).
  assert (H2 : (17 <= cardsLeft twos)%nat) by (vm_compute; lia).
  split; [exact H1|]. split; [exact H2|].
  apply (dealer_turn_ends _ H1 H2).
Defined.

Example score_of_missing_value : Score.score [blank; king] = Num 21.
Proof. vm_compute. reflexivity. Qed.

Lemma draw_lowers_score_exactly_when_witness :
  ranks_of [ace; two] = Some [Ace; Number 2]
  /\ rank_of (value nine) = Some (Number 9)
  /\ exists a b : Z,
       Score.score [ace; two] = Num a
       /\ Score.score ([ace; two] ++ [nine]) = Num b
       /\ b < a.
Proof.
  assert (H1 : ranks_of [ace; two] = Some [Ace; Number 2]) by reflexivity.
  assert (H2 : rank_of (value nine) = Some (Number 9)) by reflexivity.
  split; [exact H1|]. split; [exact H2|].
  destruct (draw_lowers_score_exactly_when _ _ _ _ H1 H2)
    as (a & b & Ha & Hb & _ & Hiff & _).
  exists a, b. split; [exact Ha|]. split; [exact Hb|].
  apply Hiff. unfold soft.
  change (aces [Ace; Number 2]) with 1%nat.
  change (hardTotal [Ace; Number 2]) with 3.
  change (lowValue (Number 9)) with 9.
  lia.
Defined.

Lemma alter_absent {A} (f : A -> A) (k : string) (m : gmap string A) :
  m !! k = None -> alter f k m = m.
Proof.
  intros Hk. apply map_eq. intros j. destruct (decide (j = k)) as [->|Hne].
  - now rewrite lookup_alter_eq, Hk.
  - now rewrite lookup_alter_ne.
Qed.

(** C8, as the claim states it, fails: a round-end request for a name
    that has no row changes no counter of the table at all. *)
Lemma round_end_of_unknown_game_counts_nothing :
  ~ (forall (w : Server.World) (name winner : string),
       exists (name' : string) (row row' : Server.Row),
         Server.games w !! name' = Some row
         /\ Server.games (snd (Server.endGame name winner w)) !! name' = Some row'
         /\ ((Server.row_gamesWon row' = Server.row_gamesWon row + 1
              /\ Server.row_gamesLost row' = Server.row_gamesLost row)
             \/ (Server.row_gamesWon row' = Server.row_gamesWon row
                 /\ Server.row_gamesLost row' = Server.row_gamesLost row + 1))).
Proof.
  intros H.
  destruct (H world "nobody" "player") as (name' & row & row' & Hrow & Hrow' & Hinc).
  rewrite endGame_games in Hrow'.
  rewrite (alter_absent _ "nobody" (Server.games world) eq_refl) in Hrow'.
  rewrite Hrow in Hrow'. injection Hrow' as <-. lia.
Qed.

End MoreSamples.
